(** * Gallery backend (server.js): a shallow embedding and its properties

    The service keeps a JSON document (data/gallery.json) holding the list
    of image records and a directory of uploaded files
    (public/images/gallery).  Route handlers are embedded as computations in
    a state-and-exception monad over the file system; the clock, the random
    source and the outcome of the metadata write are inputs of a request. *)

From Stdlib Require Import ZArith NArith Ascii.
From stdpp Require Import base option list gmap strings pretty.

(** ** Data model *)

(** One gallery entry, as built in the upload handler (newImage). *)
Record ImageRecord := {
  id : string;
  src : string;
  alt : string;
  category : string;
  createdAt : string;
}.

Global Instance ImageRecord_eq_dec : EqDecision ImageRecord.
Proof. solve_decision. Defined.

(** What [JSON.parse] can make of the metadata document: an array of
    records, [null], or another JSON value that is no array (object, number,
    string, boolean), kept as its text. *)
Inductive jsval :=
| JArray (images : list ImageRecord)
| JNull
| JOther (text : string).

Global Instance jsval_eq_dec : EqDecision jsval.
Proof. solve_decision. Defined.

(** Content of the metadata document, classified by what [JSON.parse] does
    with it. *)
Inductive text :=
| Garbled (raw : string)      (* JSON.parse throws a SyntaxError *)
| Encodes (v : jsval).        (* JSON.parse returns v *)

(** Thrown values: multer's own errors carry a code. *)
Inductive Error :=
| MulterError (code : string) (message : string)
| JsError (message : string).

Definition message_of (e : Error) : string :=
  match e with
  | MulterError _ m => m
  | JsError m => m
  end.

(** ** The file system

    Paths are relative to [__dirname].  [files] holds every regular file but
    the metadata document, each with its length in bytes (the service never
    looks inside an image); [db] is the document at [dbPath], absent or
    unreadable when [None]. *)
Record World := {
  files : gmap string N;
  db : option text;
}.

Definition uploadsDir : string := "public/images/gallery".
Definition dbPath : string := "data/gallery.json".

(** Lines 27-38: the store found by the first request of a fresh install. *)
Definition initial_world : World :=
  {| files := ∅; db := Some (Encodes (JArray [])) |}.

(** What a request reads from its environment. *)
Record Env := {
  now_file : Z;          (* Date.now() in the storage's filename callback *)
  random : Z;            (* Math.round(Math.random() * 1E9) *)
  now_id : Z;            (* Date.now() in the upload handler *)
  iso_time : string;     (* new Date().toISOString() *)
  disk_ok : bool;        (* does fs.writeFileSync(dbPath, ...) succeed *)
}.

(** ** State and exceptions *)

Definition M (A : Type) : Type := World → (Error + A) * World.

Definition ret {A} (a : A) : M A := λ w, (inr a, w).

Definition bind {A B} (m : M A) (k : A → M B) : M B :=
  λ w, match m w with
       | (inr a, w') => k a w'
       | (inl e, w') => (inl e, w')
       end.

Definition throw {A} (e : Error) : M A := λ w, (inl e, w).

Definition try_catch {A} (m : M A) (h : Error → M A) : M A :=
  λ w, match m w with
       | (inr a, w') => (inr a, w')
       | (inl e, w') => h e w'
       end.

Notation "'let*' x := m 'in' k" := (bind m (λ x, k))
  (at level 10, x name, m at level 100, k at level 200,
   format "'[v' 'let*'  x  :=  m  'in' '/' k ']'").
Notation "m ;; k" := (bind m (λ _, k))
  (at level 100, k at level 200, right associativity).

(** ** Node primitives *)

(** [path.join(a, b)] on the paths the service builds: one separator at the
    junction.  Segments [.] and [..] and repeated separators inside [a] or
    [b] are left as they are, where Node would resolve them, and the file
    map below knows no directories: the function is exact when [b] is a
    plain file name, or "/images/gallery/" followed by one (the [src] the
    upload handler writes, [service_src] below).  Statements about a path
    built from a stored [src] are made for such values only. *)
Definition path_join (a b : string) : string :=
  match b with
  | String "/" _ => a +:+ b
  | _ => a +:+ "/" +:+ b
  end.

(** [path.extname] (POSIX): the scan from the end of the string. *)
Record ext_scan := {
  startDot : Z;
  startPart : Z;
  end_ : Z;
  matchedSlash : bool;
  preDotState : Z;
}.

Fixpoint extname_loop (p : string) (n : nat) (s : ext_scan) : ext_scan :=
  match n with
  | O => s
  | S i =>
    match String.get i p with
    | None => extname_loop p i s
    | Some code =>
      if decide (code = "/"%char) then
        if negb (matchedSlash s) then
          {| startDot := startDot s; startPart := Z.of_nat i + 1;
             end_ := end_ s; matchedSlash := matchedSlash s;
             preDotState := preDotState s |}
        else extname_loop p i s
      else
        let s1 :=
          if decide (end_ s = -1)%Z then
            {| startDot := startDot s; startPart := startPart s;
               end_ := Z.of_nat i + 1; matchedSlash := false;
               preDotState := preDotState s |}
          else s in
        let s2 :=
          if decide (code = "."%char) then
            if decide (startDot s1 = -1)%Z then
              {| startDot := Z.of_nat i; startPart := startPart s1;
                 end_ := end_ s1; matchedSlash := matchedSlash s1;
                 preDotState := preDotState s1 |}
            else if decide (preDotState s1 ≠ 1)%Z then
              {| startDot := startDot s1; startPart := startPart s1;
                 end_ := end_ s1; matchedSlash := matchedSlash s1;
                 preDotState := 1 |}
            else s1
          else if decide (startDot s1 ≠ -1)%Z then
            {| startDot := startDot s1; startPart := startPart s1;
               end_ := end_ s1; matchedSlash := matchedSlash s1;
               preDotState := -1 |}
          else s1 in
        extname_loop p i s2
    end
  end.

Definition path_extname (p : string) : string :=
  let s := extname_loop p (String.length p)
             {| startDot := -1; startPart := 0; end_ := -1;
                matchedSlash := true; preDotState := 0 |} in
  if decide (startDot s = -1 ∨ end_ s = -1 ∨ preDotState s = 0 ∨
             (preDotState s = 1 ∧ startDot s = end_ s - 1 ∧
              startDot s = startPart s + 1))%Z
  then ""
  else String.substring (Z.to_nat (startDot s))
                        (Z.to_nat (end_ s - startDot s)) p.

(** [Number.prototype.toString] on an integer: its decimal digits. *)
Definition toString (n : Z) : string := pretty n.

(** [fs.existsSync], [fs.unlinkSync] and the write of an uploaded file, on
    files other than the metadata document. *)
Definition existsSync (p : string) : M bool :=
  λ w, (inr (bool_decide (is_Some (files w !! p))), w).

Definition unlinkSync (p : string) : M unit :=
  λ w, match files w !! p with
       | Some _ => (inr tt, {| files := delete p (files w); db := db w |})
       | None =>
         (inl (JsError ("ENOENT: no such file or directory, unlink '"
                        +:+ p +:+ "'")), w)
       end.

(** [fs.readFileSync(dbPath, 'utf8')]. *)
Definition readFileSync_db : M text :=
  λ w, match db w with
       | Some t => (inr t, w)
       | None =>
         (inl (JsError ("ENOENT: no such file or directory, open '"
                        +:+ dbPath +:+ "'")), w)
       end.

(** [fs.writeFileSync(dbPath, t)]: replaces the document, or throws and
    leaves it as it was when the disk refuses the write. *)
Definition writeFileSync_db (e : Env) (t : text) : M unit :=
  λ w, if disk_ok e
       then (inr tt, {| files := files w; db := Some t |})
       else (inl (JsError ("EACCES: permission denied, open '"
                           +:+ dbPath +:+ "'")), w).

Definition JSON_parse (t : text) : M jsval :=
  match t with
  | Encodes v => ret v
  | Garbled _ => throw (JsError "Unexpected token in JSON")
  end.

(** [JSON.stringify(data, null, 2)]: a text that parses back to [data]. *)
Definition JSON_stringify (data : jsval) : text := Encodes data.

(** ** Reading and writing the gallery (lines 70-88) *)

Definition readGalleryData : M jsval :=
  try_catch
    (let* data := readFileSync_db in
     JSON_parse data)
    (λ error, ret (JArray [])).

Definition writeGalleryData (e : Env) (data : jsval) : M bool :=
  try_catch
    (writeFileSync_db e (JSON_stringify data);;
     ret true)
    (λ error, ret false).

(** ** Array methods the handlers call on the parsed document

    On a value that is no array the method is missing and the call throws a
    TypeError (the text is V8's). *)

Definition type_error (images : jsval) (method : string) : Error :=
  match images with
  | JNull =>
    JsError ("Cannot read properties of null (reading '" +:+ method +:+ "')")
  | _ => JsError ("images." +:+ method +:+ " is not a function")
  end.

Fixpoint filter_list (f : ImageRecord → bool) (l : list ImageRecord)
  : list ImageRecord :=
  match l with
  | [] => []
  | img :: rest =>
    if f img then img :: filter_list f rest else filter_list f rest
  end.

Fixpoint find_list (f : ImageRecord → bool) (l : list ImageRecord)
  : option ImageRecord :=
  match l with
  | [] => None
  | img :: rest => if f img then Some img else find_list f rest
  end.

Definition js_filter (f : ImageRecord → bool) (images : jsval) : M jsval :=
  match images with
  | JArray l => ret (JArray (filter_list f l))
  | _ => throw (type_error images "filter")
  end.

Definition js_find (f : ImageRecord → bool) (images : jsval)
  : M (option ImageRecord) :=
  match images with
  | JArray l => ret (find_list f l)
  | _ => throw (type_error images "find")
  end.

Definition js_unshift (images : jsval) (img : ImageRecord) : M jsval :=
  match images with
  | JArray l => ret (JArray (img :: l))
  | _ => throw (type_error images "unshift")
  end.

(** ** Responses *)

Inductive Body :=
| BList (data : jsval)                           (* { success: true, data } *)
| BImage (message : string) (data : ImageRecord) (* { success: true, message, data } *)
| BMessage (success : bool) (message : string)   (* { success, message } *)
| BFailure (message : string) (error : string).  (* { success: false, message, error } *)

Record Response := {
  status : N;
  body : Body;
}.

Definition json (code : N) (b : Body) : Response :=
  {| status := code; body := b |}.

Global Instance Body_eq_dec : EqDecision Body.
Proof. solve_decision. Defined.
Global Instance Response_eq_dec : EqDecision Response.
Proof. solve_decision. Defined.

(** ** GET /api/gallery (lines 93-107) *)

Definition get_gallery : M Response :=
  try_catch
    (let* images := readGalleryData in
     ret (json 200 (BList images)))
    (λ error,
       ret (json 500 (BFailure "Failed to fetch gallery images"
                               (message_of error)))).

(** ** GET /api/gallery/category/:category (lines 110-129) *)

Definition get_category (cat : string) : M Response :=
  try_catch
    (let* images := readGalleryData in
     let* filteredImages :=
       if String.eqb cat "all" then ret images
       else js_filter (λ img, String.eqb (category img) cat) images in
     ret (json 200 (BList filteredImages)))
    (λ error,
       ret (json 500 (BFailure "Failed to fetch images"
                               (message_of error)))).

(** ** The upload middleware (lines 41-67) *)

(** The multipart file part of an upload request; [payload] is its length
    in bytes. *)
Record UploadedPart := {
  originalname : string;
  mimetype : string;
  payload : N;
}.

(** [req.file] as the handler uses it. *)
Record ReqFile := {
  filename : string;
  path : string;
}.

Definition storage_filename (e : Env) (file : UploadedPart) : string :=
  let uniqueSuffix := toString (now_file e) +:+ "-" +:+ toString (random e) in
  let ext := path_extname (originalname file) in
  "gallery-" +:+ uniqueSuffix +:+ ext.

Definition allowedTypes : list string :=
  ["image/jpeg"; "image/jpg"; "image/png"; "image/webp"].

Fixpoint includes (l : list string) (x : string) : bool :=
  match l with
  | [] => false
  | y :: rest => if String.eqb y x then true else includes rest x
  end.

Definition invalid_file_type : Error :=
  JsError "Invalid file type. Only JPEG, PNG and WEBP are allowed.".

(** The callback's two arguments: an error, or whether to keep the file. *)
Definition fileFilter (file : UploadedPart) : Error + bool :=
  if includes allowedTypes (mimetype file) then inr true
  else inl invalid_file_type.

Definition limits_fileSize : N := 5 * 1024 * 1024.

Definition limit_file_size : Error :=
  MulterError "LIMIT_FILE_SIZE" "File too large".

(** Modelled from the spec: multer's [upload.single('image')] is a
    dependency whose code is not in the repository.  Section 4.2 gives its
    contract: the type filter decides before any byte is written; a payload
    over the size limit is rejected and no partial file is left; an accepted
    file is stored in [uploadsDir] under the generated name.  The file is
    created at its path before the size is known, so a rejected oversized
    upload leaves nothing at that path. *)
Definition upload_single (e : Env) (part : option UploadedPart)
  : M (option ReqFile) :=
  match part with
  | None => ret None
  | Some file =>
    match fileFilter file with
    | inl err => throw err
    | inr false => ret None
    | inr true =>
      let name := storage_filename e file in
      let p := path_join uploadsDir name in
      if (limits_fileSize <? payload file)%N then
        λ w, (inl limit_file_size,
              {| files := delete p (files w); db := db w |})
      else
        λ w, (inr (Some {| filename := name; path := p |}),
              {| files := <[p := payload file]> (files w); db := db w |})
    end
  end.

(** ** POST /api/gallery/upload (lines 132-192) *)

(** A form field of [req.body] that is present and not the empty string. *)
Definition truthy (field : option string) : option string :=
  match field with
  | Some s => if String.eqb s "" then None else Some s
  | None => None
  end.

Definition upload_handler (e : Env) (file : option ReqFile)
    (alt_field category_field : option string) : M Response :=
  try_catch
    (match file with
     | None => ret (json 400 (BMessage false "No image file provided"))
     | Some f =>
       match truthy alt_field, truthy category_field with
       | Some a, Some c =>
         let newImage :=
           {| id := toString (now_id e);
              src := "/images/gallery/" +:+ filename f;
              alt := a;
              category := c;
              createdAt := iso_time e |} in
         let* images := readGalleryData in
         let* images := js_unshift images newImage in
         let* written := writeGalleryData e images in
         if negb written then
           unlinkSync (path f);;
           ret (json 500 (BMessage false "Failed to save image data"))
         else
           ret (json 201 (BImage "Image uploaded successfully" newImage))
       | _, _ =>
         unlinkSync (path f);;
         ret (json 400 (BMessage false "Alt text and category are required"))
       end
     end)
    (λ error,
       (match file with
        | Some f =>
          let* present := existsSync (path f) in
          if present then unlinkSync (path f) else ret tt
        | None => ret tt
        end);;
       ret (json 500 (BFailure "Failed to upload image" (message_of error)))).

Definition post_upload (e : Env) (part : option UploadedPart)
    (alt_field category_field : option string) : M Response :=
  let* file := upload_single e part in
  upload_handler e file alt_field category_field.

(** ** DELETE /api/gallery/:id (lines 195-238) *)

Definition delete_image (e : Env) (i : string) : M Response :=
  try_catch
    (let* images := readGalleryData in
     let* imageToDelete := js_find (λ img, String.eqb (id img) i) images in
     match imageToDelete with
     | None => ret (json 404 (BMessage false "Image not found"))
     | Some img =>
       let filePath := path_join "public" (src img) in
       let* present := existsSync filePath in
       (if present then unlinkSync filePath else ret tt);;
       let* updatedImages :=
         js_filter (λ img, negb (String.eqb (id img) i)) images in
       let* written := writeGalleryData e updatedImages in
       if negb written then
         ret (json 500 (BMessage false "Failed to update database"))
       else
         ret (json 200 (BMessage true "Image deleted successfully"))
     end)
    (λ error,
       ret (json 500 (BFailure "Failed to delete image" (message_of error)))).

(** ** Error handling middleware (lines 250-264) *)

Definition error_middleware (error : Error) : Response :=
  let fallback :=
    json 500 (BMessage false
                (if String.eqb (message_of error) ""
                 then "Internal server error" else message_of error)) in
  match error with
  | MulterError code _ =>
    if String.eqb code "LIMIT_FILE_SIZE"
    then json 400 (BMessage false "File too large. Maximum size is 5MB")
    else fallback
  | JsError _ => fallback
  end.

(** ** The application: one request, then a sequence of them *)

Inductive Request :=
| GetGallery
| GetCategory (cat : string)
| PostUpload (part : option UploadedPart) (alt_field category_field : option string)
| DeleteImage (i : string).

Definition route (e : Env) (req : Request) : M Response :=
  match req with
  | GetGallery => get_gallery
  | GetCategory cat => get_category cat
  | PostUpload part a c => post_upload e part a c
  | DeleteImage i => delete_image e i
  end.

(** What the client receives and what the request leaves on disk. *)
Definition serve (e : Env) (req : Request) (w : World) : Response * World :=
  match route e req w with
  | (inr res, w') => (res, w')
  | (inl error, w') => (error_middleware error, w')
  end.

Fixpoint serve_all (reqs : list (Env * Request)) (w : World)
  : list Response * World :=
  match reqs with
  | [] => ([], w)
  | (e, req) :: rest =>
    let '(res, w1) := serve e req w in
    let '(ress, w2) := serve_all rest w1 in
    (res :: ress, w2)
  end.

(** ** The error kinds of the interface, as the responses that carry them *)

Definition MissingFile : Response :=
  json 400 (BMessage false "No image file provided").
Definition MissingFields : Response :=
  json 400 (BMessage false "Alt text and category are required").
Definition InvalidFileType : Response :=
  json 500 (BMessage false
              "Invalid file type. Only JPEG, PNG and WEBP are allowed.").
Definition PayloadTooLarge : Response :=
  json 400 (BMessage false "File too large. Maximum size is 5MB").
Definition NotFound : Response :=
  json 404 (BMessage false "Image not found").
Definition PersistFailure_upload : Response :=
  json 500 (BMessage false "Failed to save image data").
Definition PersistFailure_delete : Response :=
  json 500 (BMessage false "Failed to update database").
Definition Created (img : ImageRecord) : Response :=
  json 201 (BImage "Image uploaded successfully" img).
Definition Deleted : Response :=
  json 200 (BMessage true "Image deleted successfully").
Definition Listing (images : list ImageRecord) : Response :=
  json 200 (BList (JArray images)).

(** The index a request finds: what [readGalleryData] returns when it is an
    array. *)
Definition index_of (w : World) : option (list ImageRecord) :=
  match readGalleryData w with
  | (inr (JArray l), _) => Some l
  | _ => None
  end.

(** ** Vocabulary of the properties *)

(** The value [readGalleryData] hands to a handler. *)
Definition loaded (w : World) : jsval :=
  match db w with
  | Some (Encodes v) => v
  | _ => JArray []
  end.

(** The record the delete handler looks up and the records it keeps. *)
Definition has_id (i : string) (img : ImageRecord) : bool :=
  String.eqb (id img) i.

Definition blob_path (img : ImageRecord) : string :=
  path_join "public" (src img).

(** The record the upload handler builds. *)
Definition new_image (e : Env) (file : UploadedPart) (a c : string)
  : ImageRecord :=
  {| id := toString (now_id e);
     src := "/images/gallery/" +:+ storage_filename e file;
     alt := a;
     category := c;
     createdAt := iso_time e |}.

Definition upload_path (e : Env) (file : UploadedPart) : string :=
  path_join uploadsDir (storage_filename e file).

(** Uploads among the requests of a sequence. *)
Definition is_upload (req : Request) : Prop :=
  match req with
  | PostUpload _ _ _ => True
  | _ => False
  end.

(** The blob store: the files of [uploadsDir]. *)
Definition in_blob_store (p : string) : Prop :=
  String.prefix (uploadsDir +:+ "/") p = true.

(** A file is matched when a record of the index points at it. *)
Definition has_record (w : World) (p : string) : Prop :=
  ∃ l img, index_of w = Some l ∧ img ∈ l ∧ blob_path img = p.

Definition no_orphan (w : World) : Prop :=
  ∀ p, in_blob_store p → is_Some (files w !! p) → has_record w p.

(** No two records of an index share an id. *)
Definition unique_ids (l : list ImageRecord) : Prop := NoDup (id <$> l).

(** Every way an upload request can end, with the world it leaves. *)
Inductive upload_outcome (e : Env) (part : option UploadedPart)
    (a c : option string) (w : World) : Response → World → Prop :=
| up_no_file :
    part = None →
    upload_outcome e part a c w MissingFile w
| up_bad_type file :
    part = Some file → mimetype file ∉ allowedTypes →
    upload_outcome e part a c w InvalidFileType w
| up_too_large file :
    part = Some file → mimetype file ∈ allowedTypes →
    (limits_fileSize < payload file)%N →
    upload_outcome e part a c w PayloadTooLarge
      {| files := delete (upload_path e file) (files w); db := db w |}
| up_missing_fields file :
    part = Some file → mimetype file ∈ allowedTypes →
    (payload file ≤ limits_fileSize)%N →
    truthy a = None ∨ truthy c = None →
    upload_outcome e part a c w MissingFields
      {| files := delete (upload_path e file) (files w); db := db w |}
| up_not_an_array file a' c' :
    part = Some file → mimetype file ∈ allowedTypes →
    (payload file ≤ limits_fileSize)%N →
    truthy a = Some a' → truthy c = Some c' →
    (∀ l, loaded w ≠ JArray l) →
    upload_outcome e part a c w
      (json 500 (BFailure "Failed to upload image"
                          (message_of (type_error (loaded w) "unshift"))))
      {| files := delete (upload_path e file) (files w); db := db w |}
| up_persist_failure file a' c' l :
    part = Some file → mimetype file ∈ allowedTypes →
    (payload file ≤ limits_fileSize)%N →
    truthy a = Some a' → truthy c = Some c' →
    loaded w = JArray l → disk_ok e = false →
    upload_outcome e part a c w PersistFailure_upload
      {| files := delete (upload_path e file) (files w); db := db w |}
| up_created file a' c' l :
    part = Some file → mimetype file ∈ allowedTypes →
    (payload file ≤ limits_fileSize)%N →
    truthy a = Some a' → truthy c = Some c' →
    loaded w = JArray l → disk_ok e = true →
    upload_outcome e part a c w (Created (new_image e file a' c'))
      {| files := <[upload_path e file := payload file]> (files w);
         db := Some (Encodes (JArray (new_image e file a' c' :: l))) |}.

(** ** Sample requests and stores *)

Definition cat_jpeg : UploadedPart :=
  {| originalname := "cat.jpg"; mimetype := "image/jpeg"; payload := 1000 |}.
Definition dog_png : UploadedPart :=
  {| originalname := "dog.png"; mimetype := "image/png"; payload := 2048 |}.
Definition notes_txt : UploadedPart :=
  {| originalname := "notes.txt"; mimetype := "text/plain"; payload := 12 |}.
Definition huge_jpeg : UploadedPart :=
  {| originalname := "huge.jpg"; mimetype := "image/jpeg";
     payload := 6 * 1024 * 1024 |}.
Definition huge_txt : UploadedPart :=
  {| originalname := "huge.txt"; mimetype := "text/plain";
     payload := 6 * 1024 * 1024 |}.

Definition first_env : Env :=
  {| now_file := 1700000000000; random := 123456789;
     now_id := 1700000000001; iso_time := "2023-11-14T22:13:20.001Z";
     disk_ok := true |}.
Definition second_env : Env :=
  {| now_file := 1700000000500; random := 987654321;
     now_id := 1700000000502; iso_time := "2023-11-14T22:13:20.502Z";
     disk_ok := true |}.
(** A second upload handled within the millisecond of the first. *)
Definition same_ms_env : Env :=
  {| now_file := 1700000000001; random := 555555555;
     now_id := 1700000000001; iso_time := "2023-11-14T22:13:20.001Z";
     disk_ok := true |}.
Definition full_disk_env : Env :=
  {| now_file := 1700000000000; random := 123456789;
     now_id := 1700000000001; iso_time := "2023-11-14T22:13:20.001Z";
     disk_ok := false |}.

Definition cat_record : ImageRecord :=
  {| id := "1"; src := "/images/gallery/gallery-1-1.jpg"; alt := "a cat";
     category := "cats"; createdAt := "2023-01-01T00:00:00.000Z" |}.
Definition dog_record : ImageRecord :=
  {| id := "2"; src := "/images/gallery/gallery-2-2.png"; alt := "a dog";
     category := "dogs"; createdAt := "2023-01-02T00:00:00.000Z" |}.
Definition dog_twin : ImageRecord :=
  {| id := "2"; src := "/images/gallery/gallery-2-3.png"; alt := "a pup";
     category := "dogs"; createdAt := "2023-01-02T00:00:00.000Z" |}.

Definition stored (l : list ImageRecord) : World :=
  {| files := ∅; db := Some (Encodes (JArray l)) |}.

Definition two_uploads : list (Env * Request) :=
  [(first_env, PostUpload (Some cat_jpeg) (Some "a cat") (Some "cats"));
   (second_env, PostUpload (Some dog_png) (Some "a dog") (Some "dogs"))].

Definition two_uploads_records : list ImageRecord :=
  [new_image first_env cat_jpeg "a cat" "cats";
   new_image second_env dog_png "a dog" "dogs"].

(** ** Vocabulary of the further properties *)

(** The [success] field of a response body. *)
Definition success_of (b : Body) : bool :=
  match b with
  | BList _ => true
  | BImage _ _ => true
  | BMessage s _ => s
  | BFailure _ _ => false
  end.




(** No character of the string is the path separator. *)
Fixpoint slash_free (s : string) : Prop :=
  match s with
  | EmptyString => True
  | String ch rest => ch ≠ "/"%char ∧ slash_free rest
  end.

(** What the scan of [path.extname] knows after the characters from index
    [n] on: once [end_] is set it lies beyond [n], no separator was seen
    between [n] and [end_], and [startDot] lies in that stretch. *)
Definition scan_ok (p : string) (n : nat) (s : ext_scan) : Prop :=
  (matchedSlash s = true → end_ s = -1)%Z ∧
  (end_ s = -1 → startDot s = -1)%Z ∧
  (end_ s ≠ -1 → Z.of_nat n < end_ s)%Z ∧
  (startDot s ≠ -1 → Z.of_nat n ≤ startDot s < end_ s)%Z ∧
  (∀ j, (Z.of_nat n ≤ Z.of_nat j < end_ s)%Z →
        String.get j p ≠ Some "/"%char).

Definition corrupt_world : World :=
  {| files := ∅; db := Some (Garbled "[{") |}.
Definition object_world : World :=
  {| files := ∅; db := Some (Encodes (JOther "{}")) |}.
Definition later_env : Env :=
  {| now_file := 1700000009000; random := 42;
     now_id := 1700000009001; iso_time := "2023-11-14T22:13:29.001Z";
     disk_ok := true |}.
Definition traversal_png : UploadedPart :=
  {| originalname := "../../etc/passwd.png"; mimetype := "image/png";
     payload := 10 |}.


(** A file name with no directory part: not empty, not [.] or [..], and
    without a separator. *)
Definition plain_name (name : string) : Prop :=
  slash_free name ∧ name ≠ "" ∧ name ≠ "." ∧ name ≠ "..".

(** The [src] of a record is of the form the upload handler writes (line
    155): "/images/gallery/" followed by a plain file name. *)
Definition service_src (img : ImageRecord) : Prop :=
  ∃ name, src img = "/images/gallery/" +:+ name ∧ plain_name name.

(** [img] is the first record of [l] that has the id [i]: the one
    [images.find] returns. *)
Definition first_with_id (i : string) (l : list ImageRecord)
    (img : ImageRecord) : Prop :=
  ∃ l1 l2, l = l1 ++ img :: l2 ∧ id img = i ∧ ∀ r, r ∈ l1 → id r ≠ i.


(** A record left in a hand-edited document, with its blob on disk. *)
Definition dog_world : World :=
  {| files := {[ blob_path dog_record := 2048%N ]};
     db := Some (Encodes (JArray [cat_record; dog_record])) |}.

(** * Properties *)

(** ** Running the handlers *)

Lemma readGalleryData_run w : readGalleryData w = (inr (loaded w), w).
Proof.
  unfold readGalleryData, loaded, try_catch, bind, readFileSync_db, JSON_parse.
  destruct (db w) as [[raw|v]|]; reflexivity.
Qed.

Lemma index_of_loaded w l : index_of w = Some l ↔ loaded w = JArray l.
Proof.
  unfold index_of. rewrite readGalleryData_run.
  destruct (loaded w); split; congruence.
Qed.

Lemma writeGalleryData_run e data w :
  writeGalleryData e data w =
    if disk_ok e
    then (inr true, {| files := files w; db := Some (Encodes data) |})
    else (inr false, w).
Proof.
  unfold writeGalleryData, try_catch, bind, writeFileSync_db, JSON_stringify, ret.
  destruct (disk_ok e); reflexivity.
Qed.

Lemma World_eta w : {| files := files w; db := db w |} = w.
Proof. destruct w; reflexivity. Qed.

(** The file check of the delete handler and of the catch block of the
    upload handler: afterwards the file is gone, whether it was there or
    not. *)
Lemma unlink_if_exists_run p w :
  (let* present := existsSync p in
   if present then unlinkSync p else ret tt) w
  = (inr tt, {| files := delete p (files w); db := db w |}).
Proof.
  unfold bind, existsSync, unlinkSync, ret.
  destruct (files w !! p) as [n|] eqn:Hp; simpl.
  - rewrite Hp. reflexivity.
  - rewrite delete_id by assumption. rewrite World_eta. reflexivity.
Qed.

Lemma unlink_if_exists_then {A} p (k : M A) w :
  (let* present := existsSync p in
   (if present then unlinkSync p else ret tt);; k) w
  = k {| files := delete p (files w); db := db w |}.
Proof.
  unfold bind, existsSync, unlinkSync, ret.
  destruct (files w !! p) as [n|] eqn:Hp; simpl.
  - rewrite Hp. reflexivity.
  - rewrite delete_id by assumption. rewrite World_eta. reflexivity.
Qed.

Lemma filter_list_filter (f : ImageRecord → bool) (P : ImageRecord → Prop)
    `{∀ x, Decision (P x)} l :
  (∀ x, f x = true ↔ P x) → filter_list f l = filter P l.
Proof.
  intros Hf. induction l as [|x l IH]; [reflexivity|].
  simpl. rewrite filter_cons. destruct (f x) eqn:Hx.
  - rewrite decide_True by (apply Hf; assumption). f_equal. exact IH.
  - rewrite decide_False; [exact IH|].
    intros HP. apply Hf in HP. congruence.
Qed.

Lemma find_list_None (f : ImageRecord → bool) l :
  find_list f l = None ↔ ∀ x, x ∈ l → f x = false.
Proof.
  induction l as [|x l IH]; simpl.
  - split; [intros _ y Hy; inversion Hy|reflexivity].
  - destruct (f x) eqn:Hx.
    + split; [discriminate|]. intros Hall.
      specialize (Hall x (list_elem_of_here x l)). congruence.
    + rewrite IH. split.
      * intros Hall y Hy. apply elem_of_cons in Hy as [->|Hy]; auto.
      * intros Hall y Hy. apply Hall. apply list_elem_of_further. exact Hy.
Qed.

Lemma find_list_Some (f : ImageRecord → bool) l x :
  find_list f l = Some x → x ∈ l ∧ f x = true.
Proof.
  induction l as [|y l IH]; simpl; [discriminate|].
  destruct (f y) eqn:Hy.
  - intros [= <-]. split; [apply list_elem_of_here|exact Hy].
  - intros Hx. destruct (IH Hx) as [Hin Hfx]. split; [|exact Hfx].
    apply list_elem_of_further. exact Hin.
Qed.

Lemma has_id_true i img : has_id i img = true ↔ id img = i.
Proof. apply String.eqb_eq. Qed.

Lemma has_id_false i img : has_id i img = false ↔ id img ≠ i.
Proof. apply String.eqb_neq. Qed.

Lemma delete_image_run e i w l :
  loaded w = JArray l →
  serve e (DeleteImage i) w =
    match find_list (has_id i) l with
    | None => (NotFound, w)
    | Some img =>
      let kept := filter_list (λ img, negb (has_id i img)) l in
      let fs := delete (blob_path img) (files w) in
      if disk_ok e
      then (Deleted, {| files := fs; db := Some (Encodes (JArray kept)) |})
      else (PersistFailure_delete, {| files := fs; db := db w |})
    end.
Proof.
  intros Hl. unfold serve, route, delete_image, try_catch.
  unfold bind at 1. rewrite readGalleryData_run, Hl.
  unfold bind at 1. simpl. fold (has_id i).
  destruct (find_list (has_id i) l) as [img|]; [|reflexivity].
  fold (blob_path img). rewrite unlink_if_exists_then.
  unfold bind at 1. simpl js_filter. unfold ret at 1.
  unfold bind at 1. rewrite writeGalleryData_run.
  destruct (disk_ok e); reflexivity.
Qed.

Lemma includes_elem_of l x : includes l x = true ↔ x ∈ l.
Proof.
  induction l as [|y l IH]; simpl.
  - split; [discriminate|intros H; inversion H].
  - destruct (String.eqb y x) eqn:Hyx.
    + apply String.eqb_eq in Hyx as ->. split; [intros _; left|reflexivity].
    + apply String.eqb_neq in Hyx. rewrite IH, elem_of_cons.
      split; [tauto|intros [->|?]; [contradiction|assumption]].
Qed.

Lemma fileFilter_accepts file :
  mimetype file ∈ allowedTypes → fileFilter file = inr true.
Proof.
  intros H. unfold fileFilter.
  apply includes_elem_of in H. rewrite H. reflexivity.
Qed.

Lemma fileFilter_rejects file :
  mimetype file ∉ allowedTypes → fileFilter file = inl invalid_file_type.
Proof.
  intros H. unfold fileFilter.
  destruct (includes allowedTypes (mimetype file)) eqn:Hin; [|reflexivity].
  apply includes_elem_of in Hin. contradiction.
Qed.

Lemma unlink_written p n (fs : gmap string N) d :
  unlinkSync p {| files := <[p := n]> fs; db := d |}
  = (inr tt, {| files := delete p fs; db := d |}).
Proof.
  unfold unlinkSync. simpl. rewrite lookup_insert_eq, delete_insert_eq.
  reflexivity.
Qed.

Lemma post_upload_outcome e part a c w res w' :
  serve e (PostUpload part a c) w = (res, w') →
  upload_outcome e part a c w res w'.
Proof.
  unfold serve, route, post_upload, upload_single.
  destruct part as [file|];
    [|intros [= <- <-]; by apply up_no_file].
  destruct (decide (mimetype file ∈ allowedTypes)) as [Hty|Hty];
    [rewrite (fileFilter_accepts _ Hty)
    |rewrite (fileFilter_rejects _ Hty); intros [= <- <-];
     by eapply up_bad_type].
  fold (upload_path e file).
  destruct (limits_fileSize <? payload file)%N eqn:Hsz.
  { apply N.ltb_lt in Hsz. intros [= <- <-]. by eapply up_too_large. }
  apply N.ltb_ge in Hsz.
  unfold bind at 1. unfold upload_handler, try_catch. cbn [path filename].
  destruct (truthy a) as [a'|] eqn:Ha; [destruct (truthy c) as [c'|] eqn:Hc|].
  - fold (new_image e file a' c').
    unfold bind at 1. rewrite readGalleryData_run.
    assert (Hload : loaded {| files := <[upload_path e file:=payload file]>
                                         (files w); db := db w |}
                    = loaded w) by reflexivity.
    rewrite Hload.
    destruct (loaded w) as [l| |t] eqn:Hl.
    + unfold bind at 1. simpl js_unshift. unfold ret at 1.
      unfold bind at 1. rewrite writeGalleryData_run. simpl files.
      destruct (disk_ok e) eqn:Hok; cbn [negb].
      * intros [= <- <-]. by eapply up_created.
      * unfold bind at 1. rewrite unlink_written.
        intros [= <- <-]. by eapply up_persist_failure.
    + pose proof (up_not_an_array e (Some file) a c w file a' c'
                    eq_refl Hty Hsz Ha Hc) as Hout.
      rewrite Hl in Hout.
      simpl js_unshift. unfold throw at 1.
      unfold bind at 1. unfold bind at 1.
      rewrite unlink_if_exists_run. simpl. rewrite delete_insert_eq.
      intros [= <- <-]. apply Hout. discriminate.
    + pose proof (up_not_an_array e (Some file) a c w file a' c'
                    eq_refl Hty Hsz Ha Hc) as Hout.
      rewrite Hl in Hout.
      simpl js_unshift. unfold throw at 1.
      unfold bind at 1. unfold bind at 1.
      rewrite unlink_if_exists_run. simpl. rewrite delete_insert_eq.
      intros [= <- <-]. apply Hout. discriminate.
  - unfold bind at 1. rewrite unlink_written.
    intros [= <- <-]. eapply up_missing_fields; eauto.
  - unfold bind at 1. rewrite unlink_written.
    intros [= <- <-]. eapply up_missing_fields; eauto.
Qed.

(** [path.extname] on the examples of the Node documentation. *)
Example path_extname_examples :
  path_extname "index.html" = ".html" ∧
  path_extname "index.coffee.md" = ".md" ∧
  path_extname "index." = "." ∧
  path_extname "index" = "" ∧
  path_extname ".index" = "" ∧
  path_extname ".index.md" = ".md".
Proof. repeat split; reflexivity. Qed.

Example storage_filename_example :
  storage_filename first_env cat_jpeg = "gallery-1700000000000-123456789.jpg".
Proof. reflexivity. Qed.

(** ** Metadata load *)

(** C5: [readGalleryData] never throws and leaves the disk as it is: when
    reading the file fails or parsing its text fails it returns the empty
    array, and when both succeed it returns the parsed value. *)
Theorem load_is_fail_soft (w : World) :
  readGalleryData w =
    (inr match readFileSync_db w with
         | (inl _, _) => JArray []
         | (inr data, _) =>
           match JSON_parse data w with
           | (inl _, _) => JArray []
           | (inr parsed, _) => parsed
           end
         end, w).
Proof.
  rewrite readGalleryData_run. unfold loaded, readFileSync_db.
  destruct (db w) as [[raw|v]|]; reflexivity.
Qed.

(** ** Listing by category *)

(** C3: on a stored index [l], the category route with "all" answers the
    whole of [l] in order, and with any other category [c] exactly the
    records of [l] whose category is the string [c], in the order of [l]. *)
Theorem list_by_category_filters (e : Env) (w : World)
    (l : list ImageRecord) (c : string) :
  index_of w = Some l →
  serve e (GetCategory "all") w = (Listing l, w) ∧
  (c ≠ "all" →
   serve e (GetCategory c) w
   = (Listing (filter (λ img, category img = c) l), w)).
Proof.
  intros Hl%index_of_loaded. split.
  - unfold serve, route, get_category, try_catch.
    unfold bind at 1. rewrite readGalleryData_run, Hl. reflexivity.
  - intros Hc. apply String.eqb_neq in Hc.
    unfold serve, route, get_category, try_catch.
    unfold bind at 1. rewrite readGalleryData_run, Hl, Hc.
    unfold bind at 1. simpl js_filter. unfold ret at 1. unfold ret.
    unfold Listing. repeat f_equal.
    apply filter_list_filter. intros img. apply String.eqb_eq.
Qed.

Lemma list_by_category_filters_witness :
  serve first_env (GetCategory "all") (stored [cat_record; dog_record; dog_twin])
  = (Listing [cat_record; dog_record; dog_twin],
     stored [cat_record; dog_record; dog_twin]) ∧
  serve first_env (GetCategory "dogs") (stored [cat_record; dog_record; dog_twin])
  = (Listing (filter (λ img, category img = "dogs")
                [cat_record; dog_record; dog_twin]),
     stored [cat_record; dog_record; dog_twin]).
Proof.
  destruct (list_by_category_filters first_env
              (stored [cat_record; dog_record; dog_twin])
              [cat_record; dog_record; dog_twin] "dogs") as [Hall Hdogs].
  - reflexivity.
  - split; [exact Hall|]. apply Hdogs. discriminate.
Defined.

(** ** Upload order *)

Ltac unfold_responses :=
  unfold MissingFile, MissingFields, InvalidFileType, PayloadTooLarge,
    NotFound, PersistFailure_upload, PersistFailure_delete, Created, Deleted,
    Listing, json in *.

(** A created record goes in front of the index the upload found. *)
Lemma upload_created_prepends e part a c w l img w' :
  loaded w = JArray l →
  serve e (PostUpload part a c) w = (Created img, w') →
  loaded w' = JArray (img :: l).
Proof.
  intros Hl Hrun. apply post_upload_outcome in Hrun.
  inversion Hrun; subst; unfold_responses; try discriminate.
  simplify_eq. unfold loaded. simpl. congruence.
Qed.

Lemma serve_all_cons e req rest w :
  serve_all ((e, req) :: rest) w =
    ((serve e req w).1 :: (serve_all rest (serve e req w).2).1,
     (serve_all rest (serve e req w).2).2).
Proof.
  cbn [serve_all]. destruct (serve e req w) as [res w1]. cbn [fst snd].
  destruct (serve_all rest w1) as [ress w2]. reflexivity.
Qed.

Lemma get_gallery_run e w : serve e GetGallery w = (json 200 (BList (loaded w)), w).
Proof.
  unfold serve, route, get_gallery, try_catch.
  unfold bind at 1. rewrite readGalleryData_run. reflexivity.
Qed.

Lemma uploads_prepend_in_turn reqs : ∀ w l recs w',
  loaded w = JArray l →
  Forall (λ er, is_upload er.2) reqs →
  serve_all reqs w = (Created <$> recs, w') →
  loaded w' = JArray (reverse recs ++ l).
Proof.
  induction reqs as [|[e req] rest IH]; intros w l recs w' Hl Hup Hrun.
  - simpl in Hrun. destruct recs; [|discriminate].
    injection Hrun as <-. exact Hl.
  - rewrite serve_all_cons in Hrun.
    destruct recs as [|img recs]; [discriminate|].
    rewrite fmap_cons in Hrun. injection Hrun as Hres Hress Hw'.
    apply Forall_cons in Hup as [Hreq Hup].
    destruct req as [| |part a c|]; simpl in Hreq; try contradiction.
    destruct (serve e (PostUpload part a c) w) as [res w1] eqn:Hstep.
    simpl in Hres, Hress, Hw'. subst res.
    pose proof (upload_created_prepends _ _ _ _ _ _ _ _ Hl Hstep) as Hl1.
    rewrite reverse_cons, <- app_assoc. simpl.
    apply (IH w1); [exact Hl1|exact Hup|].
    destruct (serve_all rest w1) as [ress w2]. simpl in *. congruence.
Qed.

(** C4: when every request of a sequence is an upload answered 201 with its
    new record, each record has been put in front of the index before the
    save, so the listing that follows shows the new records most recent
    first, ahead of the records that were there before; from the empty
    index it shows exactly the new records in reverse order of upload. *)
Theorem uploads_are_listed_newest_first (reqs : list (Env * Request))
    (w w' : World) (l recs : list ImageRecord) (e : Env) :
  index_of w = Some l →
  Forall (λ er, is_upload er.2) reqs →
  serve_all reqs w = (Created <$> recs, w') →
  index_of w' = Some (reverse recs ++ l) ∧
  serve e GetGallery w' = (Listing (reverse recs ++ l), w').
Proof.
  intros Hl%index_of_loaded Hup Hrun.
  pose proof (uploads_prepend_in_turn reqs w l recs w' Hl Hup Hrun) as Hl'.
  split; [by apply index_of_loaded|].
  rewrite get_gallery_run, Hl'. reflexivity.
Qed.

Lemma uploads_are_listed_newest_first_witness :
  serve first_env GetGallery (serve_all two_uploads initial_world).2
  = (Listing [new_image second_env dog_png "a dog" "dogs";
              new_image first_env cat_jpeg "a cat" "cats"],
     (serve_all two_uploads initial_world).2).
Proof.
  refine (proj2 (uploads_are_listed_newest_first two_uploads initial_world
                   (serve_all two_uploads initial_world).2 []
                   two_uploads_records first_env _ _ _)).
  - reflexivity.
  - repeat constructor.
  - vm_compute. reflexivity.
Defined.

(** ** Delete *)

Lemma kept_filter i l :
  filter_list (λ img, negb (has_id i img)) l = filter (λ img, id img ≠ i) l.
Proof.
  apply filter_list_filter. intros img. rewrite negb_true_iff.
  apply has_id_false.
Qed.


Lemma find_list_absent i l :
  find_list (has_id i) l = None ↔ ∀ img, img ∈ l → id img ≠ i.
Proof.
  rewrite find_list_None. split; intros H img Hin.
  - apply has_id_false. by apply H.
  - apply has_id_false. by apply H.
Qed.

Lemma find_list_first i l img :
  find_list (has_id i) l = Some img → first_with_id i l img.
Proof.
  induction l as [|x l IH]; simpl; [discriminate|].
  destruct (has_id i x) eqn:Hx.
  - intros [= <-]. exists [], l. split; [reflexivity|].
    split; [by apply has_id_true|]. intros r Hr. inversion Hr.
  - intros Hfind. destruct (IH Hfind) as (l1 & l2 & -> & Hid & Hbefore).
    exists (x :: l1), l2. split; [reflexivity|]. split; [exact Hid|].
    intros r Hr. apply elem_of_cons in Hr as [->|Hr].
    + by apply has_id_false.
    + by apply Hbefore.
Qed.



Lemma service_src_dog_record : service_src dog_record.
Proof.
  exists "gallery-2-2.png". split; [reflexivity|].
  unfold plain_name. simpl. repeat split; discriminate.
Qed.


(** C9: a Delete that answers success saves the index without any record
    of the given id: every record that carried the id is removed, however
    many there were. *)
Theorem delete_removes_every_match (e : Env) (i : string) (w w' : World)
    (l : list ImageRecord) :
  index_of w = Some l →
  serve e (DeleteImage i) w = (Deleted, w') →
  ∃ kept,
    db w' = Some (Encodes (JArray kept)) ∧
    kept = filter (λ img, id img ≠ i) l ∧
    (∀ img, img ∈ kept → id img ≠ i) ∧
    (∀ img, img ∈ l → id img ≠ i → img ∈ kept).
Proof.
  intros Hl%index_of_loaded Hrun.
  rewrite (delete_image_run e i w l Hl) in Hrun.
  destruct (find_list (has_id i) l) as [img|];
    [|unfold_responses; discriminate].
  cbv zeta in Hrun.
  destruct (disk_ok e); [|unfold_responses; discriminate].
  injection Hrun as <-. rewrite kept_filter.
  eexists. split; [reflexivity|]. split; [reflexivity|]. split.
  - intros img' [Hne _]%list_elem_of_filter. exact Hne.
  - intros img' Hin Hne. apply list_elem_of_filter. done.
Qed.

Lemma delete_removes_every_match_witness :
  ∃ kept,
    db (serve first_env (DeleteImage "2")
          (stored [dog_record; cat_record; dog_twin])).2
    = Some (Encodes (JArray kept)) ∧
    kept = filter (λ img, id img ≠ "2") [dog_record; cat_record; dog_twin] ∧
    (∀ img, img ∈ kept → id img ≠ "2").
Proof.
  destruct (delete_removes_every_match first_env "2"
              (stored [dog_record; cat_record; dog_twin])
              (serve first_env (DeleteImage "2")
                 (stored [dog_record; cat_record; dog_twin])).2
              [dog_record; cat_record; dog_twin])
    as (kept & H1 & H2 & H3 & _).
  - reflexivity.
  - vm_compute. reflexivity.
  - exists kept. auto.
Defined.

(** C10: when no record of the stored index has the given id, Delete
    answers NotFound and the disk is exactly as before: the metadata
    document is not written and no file is removed. *)
Theorem delete_not_found_changes_nothing (e : Env) (i : string) (w : World)
    (l : list ImageRecord) :
  index_of w = Some l →
  (∀ img, img ∈ l → id img ≠ i) →
  serve e (DeleteImage i) w = (NotFound, w).
Proof.
  intros Hl%index_of_loaded Habsent.
  rewrite (delete_image_run e i w l Hl).
  apply find_list_absent in Habsent. rewrite Habsent. reflexivity.
Qed.

Lemma delete_not_found_changes_nothing_witness :
  serve first_env (DeleteImage "7") (stored [cat_record; dog_record])
  = (NotFound, stored [cat_record; dog_record]).
Proof.
  apply (delete_not_found_changes_nothing first_env "7"
           (stored [cat_record; dog_record]) [cat_record; dog_record]).
  - reflexivity.
  - intros img Hin. apply elem_of_cons in Hin as [->|Hin]; [discriminate|].
    apply elem_of_cons in Hin as [->|Hin]; [discriminate|].
    inversion Hin.
Defined.

(** ** The type filter and the size limit *)

Lemma upload_rejected_by_filter e file a c w :
  mimetype file ∉ allowedTypes →
  serve e (PostUpload (Some file) a c) w = (InvalidFileType, w).
Proof.
  intros Hty. unfold serve, route, post_upload, upload_single.
  rewrite (fileFilter_rejects _ Hty). reflexivity.
Qed.

(** C7: an upload whose mimetype is none of image/jpeg, image/jpg,
    image/png and image/webp is answered InvalidFileType and the disk is
    left as it was, so no blob is written; a file whose mimetype is one of
    the four passes the filter. *)
Theorem file_type_filter (e : Env) (file : UploadedPart)
    (a c : option string) (w : World) :
  (mimetype file ∉ ["image/jpeg"; "image/jpg"; "image/png"; "image/webp"] →
   fileFilter file = inl invalid_file_type ∧
   serve e (PostUpload (Some file) a c) w = (InvalidFileType, w)) ∧
  (mimetype file ∈ ["image/jpeg"; "image/jpg"; "image/png"; "image/webp"] →
   fileFilter file = inr true).
Proof.
  split.
  - intros Hty. split.
    + by apply fileFilter_rejects.
    + by apply upload_rejected_by_filter.
  - apply fileFilter_accepts.
Qed.

Lemma file_type_filter_witness :
  serve first_env (PostUpload (Some notes_txt) (Some "a") (Some "cats"))
    initial_world = (InvalidFileType, initial_world) ∧
  fileFilter dog_png = inr true.
Proof.
  split.
  - apply (file_type_filter first_env notes_txt (Some "a") (Some "cats")
             initial_world).
    intros Hin. repeat (apply elem_of_cons in Hin as [Hin|Hin];
                        [discriminate|]).
    inversion Hin.
  - apply (file_type_filter first_env dog_png None None initial_world).
    do 2 apply list_elem_of_further. apply list_elem_of_here.
Defined.

(** The statement of C8 fails for an oversized file of a type the filter
    refuses: the filter answers first, with InvalidFileType. *)
Lemma oversized_unlisted_type_is_invalid_type :
  (5 * 1024 * 1024 < payload huge_txt)%N ∧
  serve first_env (PostUpload (Some huge_txt) (Some "a") (Some "cats"))
    initial_world = (InvalidFileType, initial_world) ∧
  InvalidFileType ≠ PayloadTooLarge.
Proof.
  split; [reflexivity|]. split; [vm_compute; reflexivity|discriminate].
Qed.

(** C8, amended: an upload whose mimetype is on the allow-list and whose
    payload is longer than 5 * 1024 * 1024 bytes is answered
    PayloadTooLarge; afterwards there is no file at the path generated for
    it, no file has been added, and the metadata document is unchanged.  An
    upload of at most that length is never answered PayloadTooLarge. *)
Theorem size_limit (e : Env) (file : UploadedPart) (a c : option string)
    (w : World) :
  ((5 * 1024 * 1024 < payload file)%N →
   mimetype file ∈ ["image/jpeg"; "image/jpg"; "image/png"; "image/webp"] →
   ∃ w',
     serve e (PostUpload (Some file) a c) w = (PayloadTooLarge, w') ∧
     files w' !! upload_path e file = None ∧
     files w' ⊆ files w ∧
     db w' = db w) ∧
  ((payload file ≤ 5 * 1024 * 1024)%N →
   (serve e (PostUpload (Some file) a c) w).1 ≠ PayloadTooLarge).
Proof.
  split.
  - intros Hsz Hty. eexists. split.
    + unfold serve, route, post_upload, upload_single.
      rewrite (fileFilter_accepts _ Hty).
      apply N.ltb_lt in Hsz. unfold limits_fileSize. rewrite Hsz.
      reflexivity.
    + simpl. split_and!.
      * apply lookup_delete_eq.
      * apply delete_subseteq.
      * reflexivity.
  - intros Hsz Hres.
    destruct (serve e (PostUpload (Some file) a c) w) as [res w'] eqn:Hrun.
    simpl in Hres. subst res. apply post_upload_outcome in Hrun.
    inversion Hrun; subst; unfold_responses; try discriminate.
    simplify_eq. unfold limits_fileSize in *. lia.
Qed.

Lemma size_limit_witness :
  (∃ w', serve first_env (PostUpload (Some huge_jpeg) (Some "a") (Some "cats"))
           initial_world = (PayloadTooLarge, w') ∧
         db w' = db initial_world) ∧
  (serve first_env (PostUpload (Some cat_jpeg) (Some "a") (Some "cats"))
     initial_world).1 ≠ PayloadTooLarge.
Proof.
  split.
  - destruct (proj1 (size_limit first_env huge_jpeg (Some "a") (Some "cats")
                       initial_world)) as (w' & Hrun & _ & _ & Hdb).
    + reflexivity.
    + apply list_elem_of_here.
    + exists w'. auto.
  - apply (size_limit first_env cat_jpeg (Some "a") (Some "cats")
             initial_world).
    vm_compute. discriminate.
Defined.

(** ** Failed uploads *)

Lemma index_of_same_db w w' : db w' = db w → index_of w' = index_of w.
Proof.
  intros Hdb. unfold index_of. rewrite !readGalleryData_run.
  unfold loaded. rewrite Hdb. reflexivity.
Qed.

Lemma no_orphan_shrink w w' :
  db w' = db w → files w' ⊆ files w → no_orphan w → no_orphan w'.
Proof.
  intros Hdb Hsub Hno p Hp [n Hn].
  destruct (Hno p Hp) as (l & img & Hl & Hin & Hpath).
  - exists n. eapply lookup_weaken; eassumption.
  - exists l, img. rewrite (index_of_same_db _ _ Hdb). auto.
Qed.

Lemma upload_single_accepted e file w :
  mimetype file ∈ allowedTypes →
  (payload file ≤ limits_fileSize)%N →
  upload_single e (Some file) w =
    (inr (Some {| filename := storage_filename e file;
                  path := upload_path e file |}),
     {| files := <[upload_path e file := payload file]> (files w);
        db := db w |}).
Proof.
  intros Hty Hsz. unfold upload_single.
  rewrite (fileFilter_accepts _ Hty).
  apply N.ltb_ge in Hsz. rewrite Hsz. reflexivity.
Qed.

(** C2: when an upload is answered MissingFields or PersistFailure, the
    middleware had written the blob and the handler has removed it again
    before answering, leaving the metadata document as it was.  More
    generally every upload that is not answered with a created record adds
    no file and leaves the document alone, so a blob store in which every
    file has a record is still so afterwards. *)
Theorem failed_upload_leaves_no_orphan (e : Env)
    (part : option UploadedPart) (a c : option string) (w w' : World)
    (res : Response) :
  serve e (PostUpload part a c) w = (res, w') →
  (res = MissingFields ∨ res = PersistFailure_upload →
   ∃ file f w1,
     part = Some file ∧
     upload_single e part w = (inr (Some f), w1) ∧
     files w1 !! path f = Some (payload file) ∧
     files w' = delete (path f) (files w1) ∧
     files w' !! path f = None ∧
     db w' = db w) ∧
  ((∀ img, res ≠ Created img) →
   db w' = db w ∧ files w' ⊆ files w ∧ (no_orphan w → no_orphan w')).
Proof.
  intros Hrun. apply post_upload_outcome in Hrun. split.
  - intros Hres.
    assert (Hwritten : ∀ file,
      part = Some file → mimetype file ∈ allowedTypes →
      (payload file ≤ limits_fileSize)%N →
      w' = {| files := delete (upload_path e file) (files w); db := db w |} →
      ∃ file f w1,
        part = Some file ∧
        upload_single e part w = (inr (Some f), w1) ∧
        files w1 !! path f = Some (payload file) ∧
        files w' = delete (path f) (files w1) ∧
        files w' !! path f = None ∧
        db w' = db w).
    { intros file -> Hty Hsz ->. eexists file, _, _. split; [reflexivity|].
      split; [by apply upload_single_accepted|]. simpl. split_and!.
      - apply lookup_insert_eq.
      - by rewrite delete_insert_eq.
      - apply lookup_delete_eq.
      - reflexivity. }
    inversion Hrun; subst; unfold_responses;
      try (destruct Hres; discriminate); by eapply Hwritten.
  - intros Hfail.
    assert (Hworld : w' = w ∨
                     ∃ p, w' = {| files := delete p (files w); db := db w |}).
    { inversion Hrun; subst; eauto. exfalso. by eapply Hfail. }
    assert (Hdb : db w' = db w ∧ files w' ⊆ files w).
    { destruct Hworld as [->|[p ->]]; [done|].
      split; [reflexivity|apply delete_subseteq]. }
    destruct Hdb as [Hdb Hsub]. split_and!; [done|done|].
    by apply no_orphan_shrink.
Qed.

Lemma no_orphan_initial : no_orphan initial_world.
Proof. intros p _ [n Hn]. simpl in Hn. by rewrite lookup_empty in Hn. Qed.

Lemma failed_upload_leaves_no_orphan_witness :
  (∃ file f w1,
     Some cat_jpeg = Some file ∧
     upload_single first_env (Some cat_jpeg) initial_world
     = (inr (Some f), w1) ∧
     files w1 !! path f = Some (payload file) ∧
     files (serve first_env (PostUpload (Some cat_jpeg) (Some "") (Some "cats"))
              initial_world).2 !! path f = None) ∧
  no_orphan (serve full_disk_env
               (PostUpload (Some cat_jpeg) (Some "a") (Some "cats"))
               initial_world).2.
Proof.
  split.
  - destruct (failed_upload_leaves_no_orphan first_env (Some cat_jpeg)
                (Some "") (Some "cats") initial_world
                (serve first_env
                   (PostUpload (Some cat_jpeg) (Some "") (Some "cats"))
                   initial_world).2
                MissingFields) as [Hnamed _].
    + vm_compute. reflexivity.
    + destruct Hnamed as (file & f & w1 & H1 & H2 & H3 & _ & H5 & _).
      * left. reflexivity.
      * exists file, f, w1. auto.
  - destruct (failed_upload_leaves_no_orphan full_disk_env (Some cat_jpeg)
                (Some "a") (Some "cats") initial_world
                (serve full_disk_env
                   (PostUpload (Some cat_jpeg) (Some "a") (Some "cats"))
                   initial_world).2
                PersistFailure_upload) as [_ Hany].
    + vm_compute. reflexivity.
    + destruct Hany as (_ & _ & Hno).
      * intros img. discriminate.
      * apply Hno. exact no_orphan_initial.
Defined.

(** The record of an upload points at the file the middleware wrote, so a
    successful upload keeps every blob matched as well. *)
Lemma blob_path_new_image e file a c :
  blob_path (new_image e file a c) = upload_path e file.
Proof. reflexivity. Qed.


(** ** Identifiers *)


Lemma upload_keeps_ids_unique e part a c w res w' l :
  index_of w = Some l → unique_ids l →
  (∀ img, img ∈ l → ∃ t, id img = toString t ∧ (t < now_id e)%Z) →
  serve e (PostUpload part a c) w = (res, w') →
  ∃ l', index_of w' = Some l' ∧ unique_ids l'.
Proof.
  intros Hl Huniq Hclock Hrun. pose proof Hl as Hload%index_of_loaded.
  apply post_upload_outcome in Hrun.
  assert (Hsame : db w' = db w → ∃ l', index_of w' = Some l' ∧ unique_ids l').
  { intros Hdb. exists l. split; [|exact Huniq].
    rewrite <- Hl. by apply index_of_same_db. }
  inversion Hrun; subst; try (by apply Hsame).
  assert (l0 = l) as -> by congruence.
  eexists. split; [reflexivity|].
  unfold unique_ids. rewrite fmap_cons. apply NoDup_cons. split; [|exact Huniq].
  intros (img & Hid & Hin)%list_elem_of_fmap.
  destruct (Hclock img Hin) as (t & Ht & Hlt).
  simpl in Hid. rewrite Ht in Hid. unfold toString in Hid.
  apply (inj pretty) in Hid. lia.
Qed.

(** C1 does not hold of the code: the id is the clock reading alone, so two
    uploads handled within one millisecond are both answered with a created
    record and the saved index holds the same id twice. *)
Theorem same_millisecond_uploads_share_an_id :
  ∃ r1 r2 w,
    serve_all
      [(first_env, PostUpload (Some cat_jpeg) (Some "a cat") (Some "cats"));
       (same_ms_env, PostUpload (Some dog_png) (Some "a dog") (Some "dogs"))]
      initial_world
    = ([Created r1; Created r2], w) ∧
    index_of w = Some [r2; r1] ∧
    r1 ≠ r2 ∧ id r1 = id r2 ∧
    ¬ unique_ids [r2; r1].
Proof.
  eexists _, _, _. split; [vm_compute; reflexivity|].
  split; [reflexivity|]. split; [discriminate|]. split; [reflexivity|].
  unfold unique_ids. simpl. intros Hnd.
  apply NoDup_cons in Hnd as [Hnotin _]. apply Hnotin. apply list_elem_of_here.
Qed.

(** What the shared id costs: one Delete drops both records from the index
    but unlinks the file of the first match only, so the blob of the other
    upload stays on disk with no record. *)
Example delete_of_shared_id_strands_a_blob :
  let w :=
    (serve_all
       [(first_env, PostUpload (Some cat_jpeg) (Some "a cat") (Some "cats"));
        (same_ms_env, PostUpload (Some dog_png) (Some "a dog") (Some "dogs"));
        (second_env, DeleteImage "1700000000001")]
       initial_world).2 in
  index_of w = Some [] ∧
  files w !! upload_path first_env cat_jpeg = Some 1000%N ∧
  ¬ no_orphan w.
Proof.
  split; [vm_compute; reflexivity|]. split; [vm_compute; reflexivity|].
  intros Hno.
  destruct (Hno (upload_path first_env cat_jpeg)) as (l & img & Hl & Hin & _).
  - reflexivity.
  - exists 1000%N. vm_compute. reflexivity.
  - vm_compute in Hl. injection Hl as <-. inversion Hin.
Qed.

(** * Further properties of the routes *)

(** ** The routes on any document *)

Lemma get_category_run e c w :
  serve e (GetCategory c) w =
    (if String.eqb c "all" then json 200 (BList (loaded w))
     else match loaded w with
          | JArray l =>
            Listing (filter_list (λ img, String.eqb (category img) c) l)
          | v => json 500 (BFailure "Failed to fetch images"
                             (message_of (type_error v "filter")))
          end, w).
Proof.
  unfold serve, route, get_category, try_catch.
  unfold bind at 1. rewrite readGalleryData_run.
  destruct (String.eqb c "all"); [reflexivity|].
  destruct (loaded w); reflexivity.
Qed.

Lemma delete_image_run_no_array e i w :
  (∀ l, loaded w ≠ JArray l) →
  serve e (DeleteImage i) w =
    (json 500 (BFailure "Failed to delete image"
                 (message_of (type_error (loaded w) "find"))), w).
Proof.
  intros Hno. unfold serve, route, delete_image, try_catch.
  unfold bind at 1. rewrite readGalleryData_run.
  destruct (loaded w) as [l| |t]; [by destruct (Hno l)|reflexivity..].
Qed.

Lemma loaded_array_or_not w :
  (∃ l, loaded w = JArray l) ∨ (∀ l, loaded w ≠ JArray l).
Proof. destruct (loaded w); eauto; right; discriminate. Qed.

Lemma loaded_encodes w v : db w = Some (Encodes v) → loaded w = v.
Proof. unfold loaded. by intros ->. Qed.

Lemma loaded_fallback w :
  db w = None ∨ (∃ raw, db w = Some (Garbled raw)) → loaded w = JArray [].
Proof. unfold loaded. by intros [->|[raw ->]]. Qed.

(** X1: GET /api/gallery cannot fail and writes nothing: it always answers
    200 and leaves the disk as it was; on an absent or unparsable document
    it lists the empty array, otherwise the parsed value as it is. *)
Theorem gallery_listing_never_fails (e : Env) (w : World) :
  (serve e GetGallery w).2 = w ∧
  status (serve e GetGallery w).1 = 200%N ∧
  (db w = None ∨ (∃ raw, db w = Some (Garbled raw)) →
   (serve e GetGallery w).1 = Listing []) ∧
  (∀ v, db w = Some (Encodes v) →
        (serve e GetGallery w).1 = json 200 (BList v)).
Proof.
  rewrite get_gallery_run. split_and!; try reflexivity.
  - intros H. simpl. by rewrite (loaded_fallback w H).
  - intros v H. simpl. by rewrite (loaded_encodes w v H).
Qed.

Lemma gallery_listing_never_fails_witness :
  (serve first_env GetGallery corrupt_world).1 = Listing [] ∧
  (serve first_env GetGallery object_world).1 = json 200 (BList (JOther "{}")).
Proof.
  split.
  - destruct (gallery_listing_never_fails first_env corrupt_world)
      as (_ & _ & Hempty & _).
    apply Hempty. right. by exists "[{".
  - destruct (gallery_listing_never_fails first_env object_world)
      as (_ & _ & _ & Hparsed).
    by apply Hparsed.
Defined.

(** X2: the category route asked for "all" answers exactly what
    GET /api/gallery answers, on every document, and a category request
    never changes the disk. *)
Theorem category_all_is_the_gallery (e : Env) (c : string) (w : World) :
  serve e (GetCategory "all") w = serve e GetGallery w ∧
  (serve e (GetCategory c) w).2 = w.
Proof.
  rewrite !get_category_run, get_gallery_run. split; reflexivity.
Qed.

(** An upload that passes the filter, the size limit and the field check:
    what it answers and leaves depends on the document and the disk only. *)
Lemma post_upload_valid_run e file a c a' c' w :
  mimetype file ∈ allowedTypes → (payload file ≤ limits_fileSize)%N →
  truthy a = Some a' → truthy c = Some c' →
  serve e (PostUpload (Some file) a c) w =
    match loaded w with
    | JArray l =>
      if disk_ok e
      then (Created (new_image e file a' c'),
            {| files := <[upload_path e file := payload file]> (files w);
               db := Some (Encodes (JArray (new_image e file a' c' :: l))) |})
      else (PersistFailure_upload,
            {| files := delete (upload_path e file) (files w); db := db w |})
    | v =>
      (json 500 (BFailure "Failed to upload image"
                   (message_of (type_error v "unshift"))),
       {| files := delete (upload_path e file) (files w); db := db w |})
    end.
Proof.
  intros Hty Hsz Ha Hc.
  destruct (serve e (PostUpload (Some file) a c) w) as [res w'] eqn:Hrun.
  apply post_upload_outcome in Hrun.
  inversion Hrun; simplify_eq; try (exfalso; done); try (exfalso; lia);
    repeat match goal with
    | H : _ ∨ _ |- _ => destruct H; congruence
    | H : loaded w = _ |- _ => rewrite H
    | H : disk_ok e = _ |- _ => rewrite H
    end; try reflexivity.
  match goal with H : ∀ l, loaded w ≠ JArray l |- _ => rename H into Hno end.
  destruct (loaded w) as [l| |t]; [by destruct (Hno l)|reflexivity..].
Qed.

(** X3: when the document parses to a value that is no array, nothing is
    overwritten: filtering by a category other than "all" and Delete answer
    500 and leave the disk as it was, and an otherwise valid upload answers
    500 "Failed to upload image", leaves the document as it was and leaves
    no file at the path it had written. *)
Theorem non_array_document_is_never_overwritten (e : Env) (w : World)
    (v : jsval) :
  db w = Some (Encodes v) →
  (∀ l, v ≠ JArray l) →
  (∀ c, c ≠ "all" →
     serve e (GetCategory c) w =
       (json 500 (BFailure "Failed to fetch images"
                    (message_of (type_error v "filter"))), w)) ∧
  (∀ i, serve e (DeleteImage i) w =
       (json 500 (BFailure "Failed to delete image"
                    (message_of (type_error v "find"))), w)) ∧
  (∀ file a c a' c',
     mimetype file ∈ allowedTypes → (payload file ≤ limits_fileSize)%N →
     truthy a = Some a' → truthy c = Some c' →
     ∃ w', serve e (PostUpload (Some file) a c) w =
             (json 500 (BFailure "Failed to upload image"
                          (message_of (type_error v "unshift"))), w') ∧
           db w' = db w ∧
           files w' = delete (upload_path e file) (files w)).
Proof.
  intros Hdb Hno. pose proof (loaded_encodes w v Hdb) as Hv.
  split_and!.
  - intros c Hc%String.eqb_neq. rewrite get_category_run, Hc, Hv.
    destruct v as [l| |t]; [by destruct (Hno l)|reflexivity..].
  - intros i. rewrite delete_image_run_no_array by (by rewrite Hv).
    by rewrite Hv.
  - intros file a c a' c' Hty Hsz Ha Hc.
    rewrite (post_upload_valid_run e file a c a' c' w Hty Hsz Ha Hc), Hv.
    destruct v as [l| |t]; [by destruct (Hno l)|eauto..].
Qed.

Lemma non_array_document_is_never_overwritten_witness :
  serve first_env (DeleteImage "1") object_world =
    (json 500 (BFailure "Failed to delete image"
                 "images.find is not a function"), object_world) ∧
  ∃ w', serve first_env (PostUpload (Some cat_jpeg) (Some "a") (Some "cats"))
          object_world =
          (json 500 (BFailure "Failed to upload image"
                       "images.unshift is not a function"), w') ∧
        db w' = db object_world.
Proof.
  destruct (non_array_document_is_never_overwritten first_env object_world
              (JOther "{}")) as (_ & Hdel & Hup).
  - reflexivity.
  - discriminate.
  - split; [apply Hdel|].
    destruct (Hup cat_jpeg (Some "a") (Some "cats") "a" "cats")
      as (w' & Hrun & Hdb & _).
    + apply list_elem_of_here.
    + vm_compute. discriminate.
    + reflexivity.
    + reflexivity.
    + exists w'. auto.
Defined.

(** ** Uploads *)

Lemma truthy_Some field s : truthy field = Some s ↔ field = Some s ∧ s ≠ "".
Proof.
  unfold truthy. destruct field as [s'|]; [|split; [discriminate|by intros []]].
  destruct (String.eqb s' "") eqn:Hs.
  - apply String.eqb_eq in Hs as ->.
    split; [discriminate|]. by intros [[= ->] ?].
  - apply String.eqb_neq in Hs. split.
    + by intros [= ->].
    + by intros [[= ->] _].
Qed.

Lemma truthy_None field : truthy field = None ↔ field = None ∨ field = Some "".
Proof.
  unfold truthy. destruct field as [s|]; [|split; auto].
  destruct (String.eqb s "") eqn:Hs.
  - apply String.eqb_eq in Hs as ->. split; auto.
  - apply String.eqb_neq in Hs. split; [discriminate|].
    intros [|[= ->]]; done.
Qed.

(** What the upload handler does once both fields are present and not
    empty and the middleware has left a file. *)
Lemma upload_handler_valid_run e f a c a' c' w :
  truthy a = Some a' → truthy c = Some c' →
  upload_handler e (Some f) a c w =
    let newImage :=
      {| id := toString (now_id e);
         src := "/images/gallery/" +:+ filename f;
         alt := a'; category := c'; createdAt := iso_time e |} in
    match loaded w with
    | JArray l =>
      if disk_ok e
      then (inr (Created newImage),
            {| files := files w;
               db := Some (Encodes (JArray (newImage :: l))) |})
      else (inr (match files w !! path f with
                 | Some _ => PersistFailure_upload
                 | None =>
                   json 500
                     (BFailure "Failed to upload image"
                        ("ENOENT: no such file or directory, unlink '"
                         +:+ path f +:+ "'"))
                 end),
            {| files := delete (path f) (files w); db := db w |})
    | v =>
      (inr (json 500 (BFailure "Failed to upload image"
                        (message_of (type_error v "unshift")))),
       {| files := delete (path f) (files w); db := db w |})
    end.
Proof.
  intros Ha Hc. unfold upload_handler, try_catch. rewrite Ha, Hc. cbv zeta.
  unfold bind at 1. rewrite readGalleryData_run.
  destruct (loaded w) as [l| |t].
  - unfold bind at 1. simpl js_unshift. unfold ret at 1.
    unfold bind at 1. rewrite writeGalleryData_run.
    destruct (disk_ok e); cbn [negb]; [reflexivity|].
    unfold bind at 1. unfold unlinkSync at 1.
    destruct (files w !! path f) as [n|] eqn:Hp.
    + reflexivity.
    + unfold bind at 1. rewrite unlink_if_exists_run. reflexivity.
  - simpl js_unshift. unfold throw at 1. unfold bind at 1.
    unfold bind at 1. rewrite unlink_if_exists_run. reflexivity.
  - simpl js_unshift. unfold throw at 1. unfold bind at 1.
    unfold bind at 1. rewrite unlink_if_exists_run. reflexivity.
Qed.

(** When a field is absent or empty the handler never answers 201. *)
Lemma upload_handler_missing_field e f a c w :
  truthy a = None ∨ truthy c = None →
  ∀ img, (upload_handler e (Some f) a c w).1 ≠ inr (Created img).
Proof.
  intros Hmiss img. unfold upload_handler, try_catch.
  assert (Hbranch :
    match truthy a, truthy c with
    | Some _, Some _ => False
    | _, _ => True
    end).
  { destruct Hmiss as [->| ->]; [done|]. by destruct (truthy a). }
  destruct (truthy a), (truthy c); try done;
    unfold bind at 1; unfold unlinkSync at 1;
    (destruct (files w !! path f) eqn:Hp;
     [simpl; unfold_responses; discriminate
     |unfold bind at 1; rewrite unlink_if_exists_run; simpl;
      unfold_responses; discriminate]).
Qed.

(** X4: the upload handler, run on what the middleware hands it, answers
    201 exactly when [req.file] is present, alt and category are present
    and not empty, the document loads as an array (an absent or unparsable
    one counts as the empty array) and the disk takes the write. *)
Theorem upload_handler_succeeds_exactly_when (e : Env)
    (file : option ReqFile) (a c : option string) (w : World) :
  (∃ img, (upload_handler e file a c w).1 = inr (Created img)) ↔
  (∃ f a' c' l,
     file = Some f ∧
     a = Some a' ∧ a' ≠ "" ∧ c = Some c' ∧ c' ≠ "" ∧
     index_of w = Some l ∧
     disk_ok e = true).
Proof.
  split.
  - intros [img Himg]. destruct file as [f|]; [|discriminate].
    destruct (truthy a) as [a'|] eqn:Ha.
    2: { by destruct (upload_handler_missing_field e f a c w (or_introl Ha)
                        img). }
    destruct (truthy c) as [c'|] eqn:Hc.
    2: { by destruct (upload_handler_missing_field e f a c w (or_intror Hc)
                        img). }
    rewrite (upload_handler_valid_run e f a c a' c' w Ha Hc) in Himg.
    cbv zeta in Himg. apply truthy_Some in Ha as [-> Ha].
    apply truthy_Some in Hc as [-> Hc].
    destruct (loaded w) as [l| |t] eqn:Hl; [|discriminate..].
    destruct (disk_ok e) eqn:Hok.
    + exists f, a', c', l. split_and!; try done. by apply index_of_loaded.
    + simpl in Himg. destruct (files w !! path f); discriminate.
  - intros (f & a' & c' & l & -> & -> & Ha & -> & Hc & Hl%index_of_loaded
            & Hok).
    rewrite (upload_handler_valid_run e f (Some a') (Some c') a' c' w)
      by (by apply truthy_Some).
    cbv zeta. rewrite Hl, Hok. eauto.
Qed.

Lemma upload_handler_succeeds_exactly_when_witness :
  ∃ img,
    (upload_handler first_env
       (Some {| filename := storage_filename first_env cat_jpeg;
                path := upload_path first_env cat_jpeg |})
       (Some "a cat") (Some "cats") corrupt_world).1 = inr (Created img).
Proof.
  apply (upload_handler_succeeds_exactly_when first_env
           (Some {| filename := storage_filename first_env cat_jpeg;
                    path := upload_path first_env cat_jpeg |})
           (Some "a cat") (Some "cats") corrupt_world).
  eexists _, "a cat", "cats", []. split_and!; try reflexivity; discriminate.
Defined.

(** X5: the file and the two fields are checked before the document is
    looked at.  Without a file part the answer is MissingFile and nothing
    changes, whatever the fields; with an acceptable file but an absent or
    empty alt or category the answer is MissingFields, the document is as
    it was and no file is left at the written path, whatever the document
    holds and whether or not the disk would take a write. *)
Theorem upload_fields_are_checked_first (e : Env) (a c : option string)
    (w : World) :
  serve e (PostUpload None a c) w = (MissingFile, w) ∧
  (∀ file,
     mimetype file ∈ ["image/jpeg"; "image/jpg"; "image/png"; "image/webp"] →
     (payload file ≤ 5 * 1024 * 1024)%N →
     a = None ∨ a = Some "" ∨ c = None ∨ c = Some "" →
     serve e (PostUpload (Some file) a c) w =
       (MissingFields,
        {| files := delete (upload_path e file) (files w); db := db w |})).
Proof.
  split; [reflexivity|]. intros file Hty Hsz Hfield.
  assert (Hmiss : truthy a = None ∨ truthy c = None).
  { rewrite !truthy_None. tauto. }
  destruct (serve e (PostUpload (Some file) a c) w) as [res w'] eqn:Hrun.
  apply post_upload_outcome in Hrun.
  inversion Hrun; simplify_eq; try done;
    try (exfalso; unfold limits_fileSize in *; lia);
    destruct Hmiss; congruence.
Qed.

Lemma upload_fields_are_checked_first_witness :
  serve full_disk_env (PostUpload (Some cat_jpeg) (Some "a cat") (Some ""))
    object_world =
  (MissingFields,
   {| files := delete (upload_path full_disk_env cat_jpeg) (files object_world);
      db := db object_world |}).
Proof.
  destruct (upload_fields_are_checked_first full_disk_env (Some "a cat")
              (Some "") object_world) as [_ H].
  apply H.
  - apply list_elem_of_here.
  - vm_compute. discriminate.
  - auto.
Defined.

(** X6: what a 201 answer means.  The record returned carries the alt and
    category of the request as they were sent, the id is the decimal text
    of the clock reading, the src is "/images/gallery/" followed by the
    stored name; exactly one file was written, with the payload, at the very
    path that Delete will unlink for this record, and every other file is
    as it was. *)
Theorem created_upload_effect (e : Env) (part : option UploadedPart)
    (a c : option string) (w w' : World) (img : ImageRecord) :
  serve e (PostUpload part a c) w = (Created img, w') →
  ∃ file,
    part = Some file ∧
    a = Some (alt img) ∧ c = Some (category img) ∧
    id img = toString (now_id e) ∧
    createdAt img = iso_time e ∧
    src img = "/images/gallery/" +:+ storage_filename e file ∧
    files w' = <[blob_path img := payload file]> (files w) ∧
    files w' !! blob_path img = Some (payload file) ∧
    (∀ p, p ≠ blob_path img → files w' !! p = files w !! p).
Proof.
  intros Hrun. apply post_upload_outcome in Hrun.
  inversion Hrun; unfold_responses; simplify_eq.
  repeat match goal with
         | H : truthy _ = Some _ |- _ => apply truthy_Some in H as [-> ?]
         end.
  eexists. split_and!; try reflexivity.
  - simpl. rewrite blob_path_new_image. apply lookup_insert_eq.
  - intros p Hp. simpl. rewrite blob_path_new_image in *.
    by apply lookup_insert_ne.
Qed.

Lemma created_upload_effect_witness :
  ∃ file,
    Some cat_jpeg = Some file ∧
    files (serve first_env
             (PostUpload (Some cat_jpeg) (Some "a cat") (Some "cats"))
             initial_world).2
      !! blob_path (new_image first_env cat_jpeg "a cat" "cats")
    = Some (payload file).
Proof.
  destruct (created_upload_effect first_env (Some cat_jpeg) (Some "a cat")
              (Some "cats") initial_world
              (serve first_env
                 (PostUpload (Some cat_jpeg) (Some "a cat") (Some "cats"))
                 initial_world).2
              (new_image first_env cat_jpeg "a cat" "cats"))
    as (file & H1 & _ & _ & _ & _ & _ & _ & H8 & _).
  - vm_compute. reflexivity.
  - exists file. auto.
Defined.

(** X7: the fail-soft load has a price.  On an absent or unparsable
    document an otherwise valid upload is answered 201 and the document is
    replaced by the array holding the new record alone. *)
Theorem upload_replaces_unreadable_document (e : Env) (file : UploadedPart)
    (a c : string) (w : World) :
  db w = None ∨ (∃ raw, db w = Some (Garbled raw)) →
  mimetype file ∈ ["image/jpeg"; "image/jpg"; "image/png"; "image/webp"] →
  (payload file ≤ 5 * 1024 * 1024)%N →
  a ≠ "" → c ≠ "" →
  disk_ok e = true →
  ∃ w',
    serve e (PostUpload (Some file) (Some a) (Some c)) w
    = (Created (new_image e file a c), w') ∧
    db w' = Some (Encodes (JArray [new_image e file a c])).
Proof.
  intros Hdb Hty Hsz Ha Hc Hok.
  rewrite (post_upload_valid_run e file (Some a) (Some c) a c w);
    [|done|done|by apply truthy_Some|by apply truthy_Some].
  rewrite (loaded_fallback w Hdb), Hok. eauto.
Qed.

Lemma upload_replaces_unreadable_document_witness :
  ∃ w',
    serve first_env (PostUpload (Some cat_jpeg) (Some "a cat") (Some "cats"))
      corrupt_world
    = (Created (new_image first_env cat_jpeg "a cat" "cats"), w') ∧
    db w' = Some (Encodes (JArray [new_image first_env cat_jpeg "a cat" "cats"])).
Proof.
  apply (upload_replaces_unreadable_document first_env cat_jpeg
           "a cat" "cats" corrupt_world).
  - right. by exists "[{".
  - apply list_elem_of_here.
  - vm_compute. discriminate.
  - discriminate.
  - discriminate.
  - reflexivity.
Defined.

(** ** Upload and Delete together *)

Lemma filter_list_all (f : ImageRecord → bool) l :
  (∀ img, img ∈ l → f img = true) → filter_list f l = l.
Proof.
  induction l as [|x l IH]; [reflexivity|]. intros Hall. simpl.
  rewrite (Hall x (list_elem_of_here x l)). f_equal. apply IH.
  intros img Hin. apply Hall. by apply list_elem_of_further.
Qed.

(** X8: Delete undoes Upload.  When an upload onto the index [l] is
    answered 201 with a record whose id no record of [l] has, and no file
    was at the written path before, then deleting the returned id (the disk
    taking the write) answers success, and afterwards the index is [l] again
    and the files are exactly those from before the upload. *)
Theorem delete_undoes_upload (e e' : Env) (part : option UploadedPart)
    (a c : option string) (w w1 : World) (l : list ImageRecord)
    (img : ImageRecord) :
  index_of w = Some l →
  serve e (PostUpload part a c) w = (Created img, w1) →
  (∀ r, r ∈ l → id r ≠ id img) →
  files w !! blob_path img = None →
  disk_ok e' = true →
  ∃ w2,
    serve e' (DeleteImage (id img)) w1 = (Deleted, w2) ∧
    index_of w2 = Some l ∧
    files w2 = files w.
Proof.
  intros Hl%index_of_loaded Hrun Hfresh Hnofile Hok.
  apply post_upload_outcome in Hrun.
  inversion Hrun; unfold_responses; simplify_eq.
  match goal with H : loaded w = JArray ?l' |- _ =>
    assert (l' = l) as -> by congruence end.
  match goal with |- context [new_image e ?f ?x ?y] =>
    set (new := new_image e f x y) in * end.
  rewrite (delete_image_run e' (id new) _ (new :: l)) by reflexivity.
  assert (Hself : has_id (id new) new = true) by by apply has_id_true.
  cbn [find_list filter_list]. rewrite Hself. cbn [negb]. cbv zeta.
  rewrite Hok. eexists. split; [reflexivity|]. split.
  - apply index_of_loaded. unfold loaded. simpl. f_equal.
    apply filter_list_all. intros r Hr. apply negb_true_iff, has_id_false.
    by apply Hfresh.
  - simpl. subst new. rewrite blob_path_new_image in *.
    rewrite delete_insert_eq. by apply delete_id.
Qed.

Lemma delete_undoes_upload_witness :
  ∃ w2,
    serve second_env
      (DeleteImage (id (new_image first_env cat_jpeg "a cat" "cats")))
      (serve first_env
         (PostUpload (Some cat_jpeg) (Some "a cat") (Some "cats"))
         (stored [dog_record])).2
    = (Deleted, w2) ∧
    index_of w2 = Some [dog_record] ∧
    files w2 = files (stored [dog_record]).
Proof.
  apply (delete_undoes_upload first_env second_env (Some cat_jpeg)
           (Some "a cat") (Some "cats") (stored [dog_record])).
  - reflexivity.
  - vm_compute. reflexivity.
  - intros r Hr. apply list_elem_of_singleton in Hr as ->. discriminate.
  - reflexivity.
  - reflexivity.
Defined.

(** X9: for records whose [src] is as the upload handler writes it, a
    Delete whose metadata write fails answers 500 "Failed to update
    database" with the file already unlinked and the record still in the
    document; the same Delete repeated once the disk takes writes answers
    success although the file is missing, touches no other file and saves
    the index without the records of that id. *)
Theorem delete_can_be_retried (e1 e2 : Env) (i : string) (w : World)
    (l : list ImageRecord) :
  index_of w = Some l →
  (∀ img, img ∈ l → id img = i → service_src img) →
  (∃ img, img ∈ l ∧ id img = i) →
  disk_ok e1 = false →
  disk_ok e2 = true →
  ∃ img w1 w2,
    first_with_id i l img ∧
    img ∈ l ∧ id img = i ∧
    serve e1 (DeleteImage i) w = (PersistFailure_delete, w1) ∧
    db w1 = db w ∧
    files w1 = delete (blob_path img) (files w) ∧
    serve e2 (DeleteImage i) w1 = (Deleted, w2) ∧
    files w2 = files w1 ∧
    index_of w2 = Some (filter (λ r, id r ≠ i) l).
Proof.
  intros Hl%index_of_loaded _ (r & Hr & Hid) Hbad Hok.
  destruct (find_list (has_id i) l) as [img|] eqn:Hfind.
  2: { pose proof (proj1 (find_list_absent i l) Hfind) as Habsent.
       by destruct (Habsent r Hr). }
  pose proof (find_list_first _ _ _ Hfind) as Hfirst.
  pose proof (find_list_Some _ _ _ Hfind) as [Hin Himg%has_id_true].
  set (w1 := {| files := delete (blob_path img) (files w); db := db w |}).
  assert (Hl1 : loaded w1 = JArray l) by exact Hl.
  exists img, w1,
    {| files := delete (blob_path img) (files w1);
       db := Some (Encodes (JArray (filter (λ r, id r ≠ i) l))) |}.
  split_and!.
  - exact Hfirst.
  - exact Hin.
  - exact Himg.
  - rewrite (delete_image_run e1 i w l Hl), Hfind. cbv zeta.
    by rewrite Hbad.
  - reflexivity.
  - reflexivity.
  - rewrite (delete_image_run e2 i w1 l Hl1), Hfind. cbv zeta.
    rewrite Hok, kept_filter. reflexivity.
  - simpl. apply delete_id, lookup_delete_eq.
  - reflexivity.
Qed.

Lemma delete_can_be_retried_witness :
  files dog_world !! blob_path dog_record = Some 2048%N ∧
  ∃ img w1 w2,
    img ∈ [cat_record; dog_record] ∧ id img = "2" ∧
    serve full_disk_env (DeleteImage "2") dog_world
    = (PersistFailure_delete, w1) ∧
    files w1 = delete (blob_path img) (files dog_world) ∧
    serve first_env (DeleteImage "2") w1 = (Deleted, w2) ∧
    index_of w2 = Some (filter (λ r, id r ≠ "2") [cat_record; dog_record]).
Proof.
  split; [reflexivity|].
  destruct (delete_can_be_retried full_disk_env first_env "2"
              dog_world [cat_record; dog_record])
    as (img & w1 & w2 & _ & H1 & H2 & H3 & _ & H5 & H6 & _ & H8).
  - reflexivity.
  - intros img Hin Hid.
    apply elem_of_cons in Hin as [->|Hin]; [discriminate|].
    apply list_elem_of_singleton in Hin as ->.
    exact service_src_dog_record.
  - exists dog_record. split; [|reflexivity].
    apply list_elem_of_further, list_elem_of_here.
  - reflexivity.
  - reflexivity.
  - exists img, w1, w2. auto 10.
Defined.

(** ** Consistency of the store *)






(** One upload, seen from the index: either nothing is recorded and no file
    is added, or the new record is in front and carries the clock reading
    as its id. *)
Lemma upload_step e part a c w res w' l :
  index_of w = Some l →
  serve e (PostUpload part a c) w = (res, w') →
  (index_of w' = Some l ∧ db w' = db w ∧ files w' ⊆ files w) ∨
  (∃ img, res = Created img ∧ index_of w' = Some (img :: l) ∧
          id img = toString (now_id e)).
Proof.
  intros Hl Hrun. pose proof Hl as Hload%index_of_loaded.
  pose proof (post_upload_outcome _ _ _ _ _ _ _ Hrun) as Hout.
  assert (Hsame : ∀ fs, fs ⊆ files w →
            index_of {| files := fs; db := db w |} = Some l ∧
            db {| files := fs; db := db w |} = db w ∧
            files {| files := fs; db := db w |} ⊆ files w).
  { intros fs Hfs. split_and!; [|done|done].
    rewrite <- Hl. by apply index_of_same_db. }
  inversion Hout; subst;
    try (left; split_and!; [exact Hl|reflexivity|reflexivity]);
    try (left; apply Hsame, delete_subseteq).
  right. eexists. split; [reflexivity|]. split; [|reflexivity].
  apply index_of_loaded. unfold loaded. simpl. congruence.
Qed.





(** ** Answers *)

(** X12: in every answer of every route the [success] field agrees with the
    status: it is true exactly when the status is 200 or 201, and otherwise
    the status is 400, 404 or 500. *)
Theorem success_field_agrees_with_status (e : Env) (req : Request)
    (w : World) :
  let res := (serve e req w).1 in
  (success_of (body res) = true ∧ (status res = 200 ∨ status res = 201)%N) ∨
  (success_of (body res) = false ∧
   (status res = 400 ∨ status res = 404 ∨ status res = 500)%N).
Proof.
  destruct req as [|cat|part a c|i]; cbv zeta.
  - rewrite get_gallery_run. left. simpl. auto.
  - rewrite get_category_run. simpl.
    destruct (String.eqb cat "all"); [left; simpl; auto|].
    destruct (loaded w); [left|right..]; simpl; auto.
  - destruct (serve e (PostUpload part a c) w) as [res w'] eqn:Hrun.
    apply post_upload_outcome in Hrun.
    inversion Hrun; subst; simpl; auto 6.
  - destruct (loaded_array_or_not w) as [[l Hl]|Hno].
    + rewrite (delete_image_run e i w l Hl).
      destruct (find_list (has_id i) l); [|right; simpl; auto].
      cbv zeta. destruct (disk_ok e); [left|right]; simpl; auto.
    + rewrite (delete_image_run_no_array e i w Hno). right. simpl. auto.
Qed.

(** X13: the error middleware always answers a failure with a message that
    is not empty.  For multer's LIMIT_FILE_SIZE error the answer is 400 with
    the text "File too large. Maximum size is 5MB", and only then is the
    status 400; for every other error it is 500 with the error's own
    message, or with "Internal server error" when that message is empty. *)
Theorem error_middleware_answers (error : Error) :
  let res := error_middleware error in
  (∃ m, body res = BMessage false m ∧ m ≠ "") ∧
  (status res = 400%N ↔ ∃ m, error = MulterError "LIMIT_FILE_SIZE" m) ∧
  ((∃ m, error = MulterError "LIMIT_FILE_SIZE" m) →
   res = json 400 (BMessage false "File too large. Maximum size is 5MB")) ∧
  ((∀ m, error ≠ MulterError "LIMIT_FILE_SIZE" m) →
   (message_of error = "" →
    res = json 500 (BMessage false "Internal server error")) ∧
   (message_of error ≠ "" →
    res = json 500 (BMessage false (message_of error)))).
Proof.
  cbv zeta.
  assert (Hfallback : ∀ m,
    (∃ m', BMessage false (if String.eqb m "" then "Internal server error"
                           else m) = BMessage false m' ∧ m' ≠ "") ∧
    (m = "" → (if String.eqb m "" then "Internal server error" else m)
              = "Internal server error") ∧
    (m ≠ "" → (if String.eqb m "" then "Internal server error" else m) = m)).
  { intros m. destruct (String.eqb m "") eqn:Hm.
    - apply String.eqb_eq in Hm as ->. split_and!; [|done|done].
      eexists. split; [reflexivity|discriminate].
    - apply String.eqb_neq in Hm. split_and!; [eauto|done|done]. }
  destruct error as [code m|m]; simpl.
  - destruct (String.eqb code "LIMIT_FILE_SIZE") eqn:Hcode; simpl.
    + apply String.eqb_eq in Hcode as ->. split_and!.
      * eexists. split; [reflexivity|discriminate].
      * split; eauto.
      * done.
      * intros Hne. by destruct (Hne m).
    + apply String.eqb_neq in Hcode.
      destruct (Hfallback m) as (Hsome & Hempty & Hown). split_and!.
      * exact Hsome.
      * split; [discriminate|]. intros [m' [= ? ?]]. done.
      * intros [m' [= ? ?]]. done.
      * intros _. split; intros Hm; unfold json; f_equal; f_equal; auto.
  - destruct (Hfallback m) as (Hsome & Hempty & Hown). split_and!.
    + exact Hsome.
    + split; [discriminate|]. intros [m' [=]].
    + intros [m' [=]].
    + intros _. split; intros Hm; unfold json; f_equal; f_equal; auto.
Qed.



Lemma error_middleware_answers_witness :
  error_middleware limit_file_size
  = json 400 (BMessage false "File too large. Maximum size is 5MB") ∧
  error_middleware (JsError "")
  = json 500 (BMessage false "Internal server error") ∧
  error_middleware (MulterError "LIMIT_UNEXPECTED_FILE" "Unexpected field")
  = json 500 (BMessage false "Unexpected field") ∧
  error_middleware invalid_file_type
  = json 500 (BMessage false
                "Invalid file type. Only JPEG, PNG and WEBP are allowed.").
Proof.
  split_and!.
  - destruct (error_middleware_answers limit_file_size) as (_ & _ & H & _).
    apply H. by eexists.
  - destruct (error_middleware_answers (JsError "")) as (_ & _ & _ & H).
    apply H; [discriminate|reflexivity].
  - destruct (error_middleware_answers
                (MulterError "LIMIT_UNEXPECTED_FILE" "Unexpected field"))
      as (_ & _ & _ & H).
    apply H; discriminate.
  - destruct (error_middleware_answers invalid_file_type) as (_ & _ & _ & H).
    apply H; discriminate.
Defined.

(** ** The stored name *)

Lemma slash_free_app s1 s2 :
  slash_free (s1 +:+ s2) ↔ slash_free s1 ∧ slash_free s2.
Proof.
  induction s1 as [|ch s1 IH]; simpl; [tauto|]. rewrite IH. tauto.
Qed.

Lemma slash_free_get s :
  (∀ k ch, String.get k s = Some ch → ch ≠ "/"%char) → slash_free s.
Proof.
  induction s as [|ch s IH]; intros Hget; simpl; [done|]. split.
  - by apply (Hget 0%nat).
  - apply IH. intros k ch' Hk. by apply (Hget (S k)).
Qed.

Lemma pretty_N_char_not_slash x : pretty_N_char x ≠ "/"%char.
Proof. unfold pretty_N_char. repeat case_match; discriminate. Qed.

Lemma pretty_N_go_slash_free x : ∀ s,
  slash_free s → slash_free (pretty_N_go x s).
Proof.
  induction (N.lt_wf_0 x) as [x _ IH]; intros s Hs.
  destruct (decide (x = 0)%N) as [->|Hx]; [by rewrite pretty_N_go_0|].
  rewrite pretty_N_go_step by lia. apply IH.
  - apply N.div_lt; lia.
  - simpl. split; [apply pretty_N_char_not_slash|exact Hs].
Qed.

Lemma pretty_N_slash_free (x : N) : slash_free (pretty x).
Proof.
  unfold pretty, pretty_N. case_decide; [simpl; split; [discriminate|done]|].
  by apply pretty_N_go_slash_free.
Qed.

Lemma toString_slash_free n : slash_free (toString n).
Proof.
  unfold toString, pretty, pretty_Z. destruct n as [|x|x].
  - simpl. split; [discriminate|done].
  - apply pretty_N_slash_free.
  - apply slash_free_app. split; [simpl; split; [discriminate|done]|].
    apply pretty_N_slash_free.
Qed.

(** The scan keeps what it knows, whether it runs to the start of the
    string or stops at a separator. *)
Lemma extname_loop_ok p n : ∀ s,
  scan_ok p n s → ∃ m, scan_ok p m (extname_loop p n s).
Proof.
  induction n as [|i IH]; intros s Hs; [by exists 0%nat|].
  destruct Hs as (H1 & H2 & H3 & H4 & H5). simpl.
  destruct (String.get i p) as [code|] eqn:Hget.
  - destruct (decide (code = "/"%char)) as [->|Hcode].
    + destruct (matchedSlash s) eqn:Hms; simpl.
      * apply IH. specialize (H1 eq_refl). specialize (H2 H1).
        unfold scan_ok. rewrite Hms. split_and!; try done; try lia.
      * exists (S i). unfold scan_ok. simpl. split_and!; done.
    + apply IH. destruct s as [sd sp en ms pd]. simpl in *.
      unfold scan_ok.
      repeat case_decide; simpl; split_and!;
        try (intros; lia); try done;
        intros j Hj; destruct (decide (j = i)) as [->|Hji];
        try (rewrite Hget; congruence); try (apply H5; lia).
  - apply IH. unfold scan_ok. split_and!; try done; try (intros; lia).
    intros j Hj. destruct (decide (j = i)) as [->|Hji];
      [by rewrite Hget|apply H5; lia].
Qed.

Lemma path_extname_slash_free p : slash_free (path_extname p).
Proof.
  unfold path_extname.
  destruct (extname_loop_ok p (String.length p)
              {| startDot := -1; startPart := 0; end_ := -1;
                 matchedSlash := true; preDotState := 0 |})
    as (m & H1 & H2 & H3 & H4 & H5).
  { unfold scan_ok. simpl. split_and!; try done. intros j Hj. lia. }
  case_decide as Hcond; [done|].
  apply slash_free_get. intros k ch Hk.
  set (s := extname_loop p _ _) in *.
  assert (Hsd : (startDot s ≠ -1)%Z) by tauto.
  specialize (H4 Hsd).
  destruct (decide (k < Z.to_nat (end_ s - startDot s))%nat) as [Hlt|Hge].
  - rewrite String.substring_correct1 in Hk by exact Hlt.
    intros ->. apply (H5 (k + Z.to_nat (startDot s))%nat); [lia|exact Hk].
  - rewrite String.substring_correct2 in Hk by lia. discriminate.
Qed.

(** X15: the name under which an upload is stored holds no path separator,
    whatever the original file name, the clock and the random number are,
    so the blob is written directly inside the uploads directory. *)
Theorem stored_name_has_no_separator (e : Env) (file : UploadedPart) :
  slash_free (storage_filename e file) ∧
  upload_path e file = uploadsDir +:+ "/" +:+ storage_filename e file ∧
  in_blob_store (upload_path e file).
Proof.
  split_and!; [|reflexivity..].
  unfold storage_filename. rewrite !slash_free_app. split_and!.
  - simpl. split_and!; done.
  - apply toString_slash_free.
  - simpl. split; [discriminate|done].
  - apply toString_slash_free.
  - apply path_extname_slash_free.
Qed.

Example stored_name_of_a_traversal_attempt :
  storage_filename later_env traversal_png = "gallery-1700000009000-42.png".
Proof. reflexivity. Qed.

(** ** Upload and the category listing *)

(** X16: after a 201 upload onto the index [l], the listing of the new
    record's category (when that is not "all") shows the new record first,
    followed by the records of [l] of that category, and the listing of
    every other category is what it was on [l]. *)
Theorem created_record_is_filed_under_its_category (e e' : Env)
    (part : option UploadedPart) (a c : option string) (w w' : World)
    (l : list ImageRecord) (img : ImageRecord) :
  index_of w = Some l →
  serve e (PostUpload part a c) w = (Created img, w') →
  (category img ≠ "all" →
   serve e' (GetCategory (category img)) w'
   = (Listing (img :: filter (λ r, category r = category img) l), w')) ∧
  (∀ c', c' ≠ "all" → c' ≠ category img →
   serve e' (GetCategory c') w'
   = (Listing (filter (λ r, category r = c') l), w')).
Proof.
  intros Hl%index_of_loaded Hrun.
  pose proof (upload_created_prepends _ _ _ _ _ _ _ _ Hl Hrun) as Hl'.
  assert (Hfilter : ∀ c', c' ≠ "all" →
    serve e' (GetCategory c') w'
    = (Listing (filter (λ r, category r = c') (img :: l)), w')).
  { intros c' Hc'%String.eqb_neq. rewrite get_category_run, Hc', Hl'.
    f_equal. f_equal. apply filter_list_filter.
    intros r. apply String.eqb_eq. }
  split.
  - intros Hcat. rewrite (Hfilter _ Hcat), filter_cons.
    by rewrite decide_True.
  - intros c' Hc' Hne. rewrite (Hfilter _ Hc'), filter_cons.
    by rewrite decide_False.
Qed.

Lemma created_record_is_filed_under_its_category_witness :
  serve second_env (GetCategory "cats")
    (serve first_env (PostUpload (Some cat_jpeg) (Some "a cat") (Some "cats"))
       (stored [dog_record; cat_record])).2
  = (Listing [new_image first_env cat_jpeg "a cat" "cats"; cat_record],
     (serve first_env (PostUpload (Some cat_jpeg) (Some "a cat") (Some "cats"))
        (stored [dog_record; cat_record])).2).
Proof.
  destruct (created_record_is_filed_under_its_category first_env second_env
              (Some cat_jpeg) (Some "a cat") (Some "cats")
              (stored [dog_record; cat_record])
              (serve first_env
                 (PostUpload (Some cat_jpeg) (Some "a cat") (Some "cats"))
                 (stored [dog_record; cat_record])).2
              [dog_record; cat_record]
              (new_image first_env cat_jpeg "a cat" "cats")) as [Hown _].
  - reflexivity.
  - vm_compute. reflexivity.
  - apply Hown. discriminate.
Defined.

(** ** The src values the service writes

    The records Delete is stated for are those the service itself writes:
    every record an upload creates has a [src] of that form, every request
    keeps an index of such records so, and hence every index reached from a
    fresh install holds such records only. *)

Lemma storage_filename_plain e file : plain_name (storage_filename e file).
Proof.
  unfold plain_name. split_and!; [|discriminate..].
  unfold storage_filename. rewrite !slash_free_app. split_and!.
  - simpl. split_and!; done.
  - apply toString_slash_free.
  - simpl. split; [discriminate|done].
  - apply toString_slash_free.
  - apply path_extname_slash_free.
Qed.

Lemma created_record_has_service_src e part a c w img w' :
  serve e (PostUpload part a c) w = (Created img, w') → service_src img.
Proof.
  intros Hrun. apply post_upload_outcome in Hrun.
  inversion Hrun; unfold_responses; simplify_eq.
  eexists. split; [reflexivity|]. apply storage_filename_plain.
Qed.

Lemma service_src_is_kept e req w res w' l :
  index_of w = Some l → Forall service_src l →
  serve e req w = (res, w') →
  ∃ l', index_of w' = Some l' ∧ Forall service_src l'.
Proof.
  intros Hl Hsrc Hrun. destruct req as [|cat|part a c|i].
  - rewrite get_gallery_run in Hrun. injection Hrun as <- <-. eauto.
  - rewrite get_category_run in Hrun. injection Hrun as <- <-. eauto.
  - destruct (upload_step _ _ _ _ _ _ _ _ Hl Hrun)
      as [(Hl' & _ & _)|(img & -> & Hl' & _)]; [eauto|].
    exists (img :: l). split; [exact Hl'|]. apply Forall_cons. split; [|done].
    by eapply created_record_has_service_src.
  - pose proof Hl as Hload%index_of_loaded.
    rewrite (delete_image_run e i w l Hload) in Hrun.
    destruct (find_list (has_id i) l) as [img|].
    + cbv zeta in Hrun. destruct (disk_ok e); injection Hrun as <- <-.
      * eexists. split; [reflexivity|]. rewrite kept_filter.
        apply Forall_forall. intros r [_ Hr]%list_elem_of_filter.
        by apply (proj1 (Forall_forall _ _) Hsrc).
      * exists l. split; [|done]. rewrite <- Hl. by apply index_of_same_db.
    + injection Hrun as <- <-. eauto.
Qed.

Lemma service_src_from_fresh_install reqs : ∀ w l,
  index_of w = Some l → Forall service_src l →
  ∃ l', index_of (serve_all reqs w).2 = Some l' ∧ Forall service_src l'.
Proof.
  induction reqs as [|[e req] rest IH]; intros w l Hl Hsrc; [eauto|].
  rewrite serve_all_cons. cbn [snd].
  destruct (serve e req w) as [res w1] eqn:Hstep. cbn [snd].
  destruct (service_src_is_kept _ _ _ _ _ _ Hl Hsrc Hstep) as (l1 & Hl1 & Hs1).
  by apply (IH w1 l1).
Qed.
